(** * pyrCRT.curveFitting: a shallow embedding and its properties

    The module [src/pyrCRT/curveFitting.py] fits an exponential and a
    polynomial on a series of intensities, ranks the peaks of their absolute
    difference, refits the exponential on the restricted domain and derives
    the rCRT and its uncertainty from the decay rate.

    Numbers are [np.float64]: IEEE 754 binary64, taken from the Standard
    Library's executable specification [SpecFloat] (precision 53, emax 1024).
    NumPy checks the floating-point status flags after every scalar and
    array operation and issues a [RuntimeWarning] for divide-by-zero,
    overflow and invalid-operation (underflow is ignored); line 17 of the
    module, [filterwarnings("error")], turns every warning into a raised
    exception.

    SciPy's [curve_fit] and the exponential of the C library behind [np.exp]
    are parameters; the solver's calls are recorded.  SciPy's [find_peaks]
    and Python's [sorted] are embedded after their algorithms. *)

From Stdlib Require Import QArith Qpower Lqa.
From Stdlib Require Import String ZArith List Bool Lia Permutation Sorted FinFun.
From Stdlib Require Import SpecFloat DecimalString.
Import ListNotations.
Local Open Scope Z_scope.

(** ** Python exceptions and the result of a call *)

(** The floating-point conditions NumPy reports (default [np.seterr]). *)
Inductive fpe : Type := DivideByZero | Overflow | Invalid.

(** The exception classes the module raises or lets through.
    [RuntimeError] carries its [__cause__] ([raise ... from err]). *)
#[warnings="-register-all"]
Inductive exn : Type :=
| RuntimeError (msg : string) (cause : option exn)
| TypeError (msg : string)
| ValueError (msg : string)
| IndexError
| OptimizeWarning (msg : string)
| RuntimeWarning (k : fpe).

Inductive result (A : Type) : Type :=
| Ok (a : A)
| Raise (e : exn).
Arguments Ok {A} a.
Arguments Raise {A} e.

Definition bind {A B} (r : result A) (k : A -> result B) : result B :=
  match r with
  | Ok a => k a
  | Raise e => Raise e
  end.

Declare Scope py_scope.
Delimit Scope py_scope with py.
Notation "x <- c ;; k" := (bind c (fun x => k))
  (at level 61, c at next level, right associativity) : py_scope.
Notation "' p <- c ;; k" := (bind c (fun p => k))
  (at level 61, p pattern, c at next level, right associativity) : py_scope.
Local Open Scope py_scope.

(** ** np.float64 *)

Module Float64.

Definition prec : Z := 53.
Definition emax : Z := 1024.

Definition float : Type := spec_float.

Definition of_Z (n : Z) : float := binary_normalize prec emax n 0 false.

Definition zero : float := S754_zero false.
Definition one : float := of_Z 1.
Definition pinf : float := S754_infinity false.
Definition ninf : float := S754_infinity true.
Definition nan : float := S754_nan.

Definition add : float -> float -> float := SFadd prec emax.
Definition sub : float -> float -> float := SFsub prec emax.
Definition mul : float -> float -> float := SFmul prec emax.
Definition div : float -> float -> float := SFdiv prec emax.
Definition sqrt : float -> float := SFsqrt prec emax.
Definition opp : float -> float := SFopp.
Definition abs : float -> float := SFabs.
Definition ltb : float -> float -> bool := SFltb.
Definition eqb : float -> float -> bool := SFeqb.
Definition leb : float -> float -> bool := SFleb.

(** The decimal literal [n/10^k], correctly rounded: quotient of two
    integers that binary64 holds exactly. *)
Definition decimal (n : Z) (k : nat) : float :=
  div (of_Z n) (of_Z (10 ^ Z.of_nat k)).

Definition is_nan (x : float) : bool :=
  match x with S754_nan => true | _ => false end.
Definition is_inf (x : float) : bool :=
  match x with S754_infinity _ => true | _ => false end.
Definition is_zero (x : float) : bool :=
  match x with S754_zero _ => true | _ => false end.
Definition is_finite (x : float) : bool :=
  match x with S754_zero _ | S754_finite _ _ _ => true | _ => false end.

(** Status flag raised by one operation, from its operands and result. *)
Definition overflowed (operands_finite : bool) (r : float) : option fpe :=
  if operands_finite && is_inf r then Some Overflow else None.

Definition div_flag (x y : float) : option fpe :=
  if is_nan x || is_nan y then None
  else if (is_zero x && is_zero y) || (is_inf x && is_inf y) then Some Invalid
  else if is_finite x && is_zero y then Some DivideByZero
  else overflowed (is_finite x && is_finite y) (div x y).

Definition mul_flag (x y : float) : option fpe :=
  if is_nan x || is_nan y then None
  else if (is_zero x && is_inf y) || (is_inf x && is_zero y) then Some Invalid
  else overflowed (is_finite x && is_finite y) (mul x y).

Definition add_flag (x y : float) : option fpe :=
  if is_nan x || is_nan y then None
  else if is_inf x && is_inf y && is_nan (add x y) then Some Invalid
  else overflowed (is_finite x && is_finite y) (add x y).

Definition sub_flag (x y : float) : option fpe :=
  if is_nan x || is_nan y then None
  else if is_inf x && is_inf y && is_nan (sub x y) then Some Invalid
  else overflowed (is_finite x && is_finite y) (sub x y).

Definition sqrt_flag (x : float) : option fpe :=
  if negb (is_nan x) && is_nan (sqrt x) then Some Invalid else None.

End Float64.

Import Float64.

(** ** NumPy scalar and array arithmetic under [filterwarnings("error")] *)

Module Np.

(** A raised status flag becomes a [RuntimeWarning], and line 17 makes the
    warning an exception. *)
Definition checked (flag : option fpe) (r : float) : result float :=
  match flag with
  | Some k => Raise (RuntimeWarning k)
  | None => Ok r
  end.

Definition divide (x y : float) : result float := checked (div_flag x y) (div x y).
Definition multiply (x y : float) : result float := checked (mul_flag x y) (mul x y).
Definition add (x y : float) : result float := checked (add_flag x y) (Float64.add x y).
Definition subtract (x y : float) : result float := checked (sub_flag x y) (sub x y).

End Np.

(** ** The module's types *)

Definition Array : Type := list float.

(** [FitParametersTuple]: the fitted parameters and their standard deviations. *)
Definition FitParametersTuple : Type := (Array * Array)%type.

(** [a[i]] for a non-negative index. *)
Definition getitem (a : Array) (i : nat) : result float :=
  match nth_error a i with
  | Some v => Ok v
  | None => Raise IndexError
  end.

(** ** rCRTFromParameters (lines 285-318) *)

Definition rCRTFromParameters (rCRTTuple : FitParametersTuple)
  : result (float * float) :=
  let '(rCRTParams, rCRTStdDev) := rCRTTuple in
  inverseRCRT <- getitem rCRTParams 1 ;;
  inverseRCRTStdDev <- getitem rCRTStdDev 1 ;;
  rCRT <- Np.divide (of_Z (-1)) inverseRCRT ;;
  m2r <- Np.multiply (of_Z (-2)) rCRT ;;
  q <- Np.divide inverseRCRTStdDev inverseRCRT ;;
  rCRTUncertainty <- Np.multiply m2r q ;;
  Ok (rCRT, rCRTUncertainty).

(** ** calculateRelativeUncertainty (lines 324-333) *)

Definition calculateRelativeUncertainty (rCRTTuple : FitParametersTuple)
  : result float :=
  let '(rCRTParams, rCRTStdDev) := rCRTTuple in
  s <- getitem rCRTStdDev 1 ;;
  b <- getitem rCRTParams 1 ;;
  q <- Np.divide s b ;;
  Np.multiply (of_Z 2) (abs q).

(** ** Array arithmetic: one ufunc call, one check of the accumulated flags *)

Module Ufunc.

Definition has (k : fpe) (flags : list (option fpe)) : bool :=
  existsb (fun f => match f, k with
                    | Some DivideByZero, DivideByZero
                    | Some Overflow, Overflow
                    | Some Invalid, Invalid => true
                    | _, _ => false
                    end) flags.

(** The handler looks at the flags in this order and the first warning, being
    an error, ends the call. *)
Definition raised (flags : list (option fpe)) : option fpe :=
  if has DivideByZero flags then Some DivideByZero
  else if has Overflow flags then Some Overflow
  else if has Invalid flags then Some Invalid
  else None.

Definition unary (flag : float -> option fpe) (op : float -> float)
    (a : Array) : result Array :=
  match raised (map flag a) with
  | Some k => Raise (RuntimeWarning k)
  | None => Ok (map op a)
  end.

(** Arrays of different lengths do not broadcast. *)
Definition binary (flag : float -> float -> option fpe)
    (op : float -> float -> float) (a b : Array) : result Array :=
  if Nat.eqb (length a) (length b) then
    match raised (map (fun p => flag (fst p) (snd p)) (combine a b)) with
    | Some k => Raise (RuntimeWarning k)
    | None => Ok (map (fun p => op (fst p) (snd p)) (combine a b))
    end
  else Raise (ValueError "operands could not be broadcast together").

Definition scalar_mul (s : float) (a : Array) : result Array :=
  unary (mul_flag s) (mul s) a.
Definition mul_scalar (a : Array) (s : float) : result Array :=
  unary (fun v => mul_flag v s) (fun v => mul v s) a.
Definition scalar_add (s : float) (a : Array) : result Array :=
  unary (add_flag s) (Float64.add s) a.
Definition add_scalar (a : Array) (s : float) : result Array :=
  unary (fun v => add_flag v s) (fun v => Float64.add v s) a.
Definition multiply : Array -> Array -> result Array := binary mul_flag mul.
Definition subtract : Array -> Array -> result Array := binary sub_flag sub.
Definition sqrt : Array -> result Array := unary sqrt_flag Float64.sqrt.
Definition absolute (a : Array) : Array := map abs a.

End Ufunc.

(** ** Python list and string helpers *)

(** [a[:stop]] *)
Definition slice_to {A} (a : list A) (stop : Z) : list A :=
  let n := Z.of_nat (length a) in
  let stop' := if stop <? 0 then Z.max (n + stop) 0 else Z.min stop n in
  firstn (Z.to_nat stop') a.

Definition str_int (n : Z) : string := NilZero.string_of_int (Z.to_int n).

Fixpoint join (sep : string) (l : list string) : string :=
  match l with
  | [] => ""%string
  | [s] => s
  | s :: rest => (s ++ sep ++ join sep rest)%string
  end.

(** [str] of a Python list: the [repr] of the items between brackets. *)
Definition str_list {A} (repr : A -> string) (l : list A) : string :=
  ("[" ++ join ", " (map repr l) ++ "]")%string.

(** [sorted(l, key=key, reverse=True)]: stable, so items with equal keys keep
    their order, and decided by [<] on the keys alone.  The insertion below
    is the result of CPython's sort whenever [<] totally preorders the keys
    (no NaN among them). *)
Fixpoint insert_desc {A} (key : A -> float) (x : A) (l : list A) : list A :=
  match l with
  | [] => [x]
  | y :: l' => if ltb (key x) (key y) then y :: insert_desc key x l' else x :: l
  end.

Definition sorted_reverse {A} (key : A -> float) (l : list A) : list A :=
  fold_right (insert_desc key) [] l.

(** ** scipy.signal.find_peaks with no condition: the local maxima

    [_local_maxima_1d]: an interior sample higher than its left neighbour
    opens a plateau; the plateau is followed while the samples stay equal and
    the last sample is not reached; it is a peak when the sample after it is
    lower, and the peak is reported at the middle of the plateau, rounded
    down.  The search resumes after the sample that closed the plateau. *)
Module Scipy.

Definition at_ (x : Array) (i : nat) : float := nth i x nan.

Fixpoint plateau_end (fuel : nat) (x : Array) (i i_ahead i_max : nat) : nat :=
  match fuel with
  | O => i_ahead
  | S fuel' =>
      if (i_ahead <? i_max)%nat && eqb (at_ x i_ahead) (at_ x i)
      then plateau_end fuel' x i (S i_ahead) i_max
      else i_ahead
  end.

Fixpoint local_maxima_loop (fuel : nat) (x : Array) (i i_max : nat) : list nat :=
  match fuel with
  | O => []
  | S fuel' =>
      if (i <? i_max)%nat then
        if ltb (at_ x (i - 1)) (at_ x i) then
          let i_ahead := plateau_end (length x) x i (S i) i_max in
          if ltb (at_ x i_ahead) (at_ x i) then
            ((i + (i_ahead - 1)) / 2)%nat
              :: local_maxima_loop fuel' x (S i_ahead) i_max
          else local_maxima_loop fuel' x (S i) i_max
        else local_maxima_loop fuel' x (S i) i_max
      else []
  end.

Definition find_peaks (x : Array) : list nat :=
  local_maxima_loop (length x) x 1 (length x - 1).

End Scipy.

(** ** The external least-squares solver and the record of its calls *)

(** The model function handed to [curve_fit]. *)
Inductive ModelFn : Type := f_exponential | f_polynomial.

(** The [bounds] argument: one array per side, or one scalar per side. *)
Inductive Bounds : Type :=
| BoundArrays (lower upper : Array)
| BoundScalars (lower upper : float).

Record Call : Type := mkCall {
  call_f : ModelFn;
  call_xdata : Array;
  call_ydata : Array;
  call_p0 : Array;
  call_bounds : Bounds
}.

(** What one run of the solver does: it returns the optimal parameters and
    their covariance matrix, or issues a warning, or raises. *)
Inductive Outcome : Type :=
| Returns (popt : Array) (pcov : list Array)
| Warns (w : exn)
| Raises (e : exn).

(** [filterwarnings("error")] (line 17): a warning is raised as an exception
    where it is issued. *)
Definition warn {A} (w : exn) : result A := Raise w.

(** A computation that calls the solver: it extends the record of the calls
    made so far, also when it ends in an exception. *)
Definition Fit (A : Type) : Type := list Call -> result A * list Call.

Definition ret {A} (a : A) : Fit A := fun log => (Ok a, log).
Definition raise {A} (e : exn) : Fit A := fun log => (Raise e, log).
Definition lift {A} (r : result A) : Fit A := fun log => (r, log).

Definition bindF {A B} (c : Fit A) (k : A -> Fit B) : Fit B :=
  fun log =>
    match c log with
    | (Ok a, log') => k a log'
    | (Raise e, log') => (Raise e, log')
    end.

(** [try: body  except <classes> as err: handler]; [handles] is the
    [isinstance] test of the except clause. *)
Definition try_except {A} (body : Fit A) (handles : exn -> bool)
    (handler : exn -> Fit A) : Fit A :=
  fun log =>
    match body log with
    | (Ok a, log') => (Ok a, log')
    | (Raise e, log') => if handles e then handler e log' else (Raise e, log')
    end.

Declare Scope fit_scope.
Delimit Scope fit_scope with fit.
Notation "x <- c ;; k" := (bindF c (fun x => k))
  (at level 61, c at next level, right associativity) : fit_scope.
Notation "' p <- c ;; k" := (bindF c (fun p => k))
  (at level 61, p pattern, c at next level, right associativity) : fit_scope.

Definition is_RuntimeError (e : exn) : bool :=
  match e with RuntimeError _ _ => true | _ => false end.

Definition is_RuntimeError_or_OptimizeWarning (e : exn) : bool :=
  match e with RuntimeError _ _ | OptimizeWarning _ => true | _ => false end.

(** [np.diag] of a 2-D array. *)
Fixpoint diag_from (i : nat) (rows : list Array) : Array :=
  match rows with
  | [] => []
  | r :: rows' =>
      match nth_error r i with
      | Some v => v :: diag_from (S i) rows'
      | None => []
      end
  end.

Definition np_diag (m : list Array) : Array := diag_from 0 m.

(** ** covToStdDev (lines 59-65) *)
Definition covToStdDev (cov : list Array) : result Array :=
  Ufunc.sqrt (np_diag cov).

(** The [maxDiv] argument of [fitRCRT] as callers can pass it: [None], an
    [int], a [list], and values of other types.  [MaxDivList] is the
    documented list of ints.  [MaxDivMixed] is a list of items that are
    themselves such values (an int, [None], a float, another list, ...),
    which line 252 hands to the function one by one.  An object of another
    type is given by the name of its type and by its [repr], the two things
    the function prints of it. *)
#[warnings="-register-all"]
Inductive MaxDiv : Type :=
| MaxDivNone
| MaxDivInt (maxDivIndex : Z)
| MaxDivList (maxDivList : list Z)
| MaxDivMixed (items : list MaxDiv)
| MaxDivFloat (v : float)
| MaxDivObject (type_name repr : string).

(** The arguments of [findMaxDivergencePeaks] after [x]: the two keyword
    tuples, or one positional array, or anything else. *)
Inductive PeaksArgs : Type :=
| Prefitted (expTuple polyTuple : FitParametersTuple)
| RawSeries (y : Array)
| OtherArgs.

Module CurveFitting.

Section Fitting.

(** [scipy.optimize.curve_fit(f, xdata, ydata, p0, bounds)] *)
Variable curve_fit_run : ModelFn -> Array -> Array -> Array -> Bounds -> Outcome.

(** The exponential behind [np.exp], one sample at a time. *)
Variable exp : float -> float.

(** [repr] of a float, as an f-string formats the items of [p0]. *)
Variable repr_float : float -> string.

Definition curve_fit (f : ModelFn) (xdata ydata p0 : Array) (bounds : Bounds)
  : Fit (Array * list Array) :=
  fun log =>
    let log' := (log ++ [mkCall f xdata ydata p0 bounds])%list in
    match curve_fit_run f xdata ydata p0 bounds with
    | Returns popt pcov => (Ok (popt, pcov), log')
    | Warns w => (warn w, log')
    | Raises e => (Raise e, log')
    end.

Definition np_exp (a : Array) : result Array :=
  Ufunc.unary (fun v => overflowed (is_finite v) (exp v)) exp a.

(** ** exponential (lines 39-43): [a * np.exp(b * x) + c] *)
Definition exponential (x : Array) (a b c : float) : result Array :=
  bx <- Ufunc.scalar_mul b x ;;
  e <- np_exp bx ;;
  ae <- Ufunc.scalar_mul a e ;;
  Ufunc.add_scalar ae c.

(** [numpy.polynomial.polynomial.polyval]: Horner's scheme from the highest
    coefficient, started as [c[-1] + x*0]. *)
Fixpoint polyval_loop (x : Array) (c0 : Array) (rest_rev : list float)
  : result Array :=
  match rest_rev with
  | [] => Ok c0
  | ci :: rest' =>
      c0x <- Ufunc.multiply c0 x ;;
      c0' <- Ufunc.scalar_add ci c0x ;;
      polyval_loop x c0' rest'
  end.

Definition polyval (x : Array) (c : list float) : result Array :=
  match rev c with
  | [] => Raise (ValueError "Coefficient array is empty")
  | clast :: rest_rev =>
      x0 <- Ufunc.mul_scalar x zero ;;
      c0 <- Ufunc.scalar_add clast x0 ;;
      polyval_loop x c0 rest_rev
  end.

(** ** polynomial (lines 49-53): [np.polynomial.Polynomial(list(coefs))(x)];
    the default domain and window map [x] to [0.0 + 1.0*x]. *)
Definition polynomial (x : Array) (coefs : list float) : result Array :=
  match coefs with
  | [] => Raise (ValueError "Coefficient array is empty")
  | _ =>
      sx <- Ufunc.scalar_mul one x ;;
      arg <- Ufunc.scalar_add zero sx ;;
      polyval arg coefs
  end.

Definition str_p0 (p0 : Array) : string := str_list repr_float p0.

(** [if p0 is None: p0 = [1.0, -0.3, 0.0]] (lines 106-107 and 241-242) *)
Definition p0_or_default (p0 : option Array) : Array :=
  match p0 with
  | None => [one; decimal (-3) 1; zero]
  | Some p => p
  end.

(** [if p0 is None: p0 = [0.0] * 7] (lines 162-163) *)
Definition poly_p0_or_default (p0 : option Array) : Array :=
  match p0 with
  | None => [zero; zero; zero; zero; zero; zero; zero]
  | Some p => p
  end.

(** The [bounds] of lines 115 and 171. *)
Definition exp_bounds : Bounds :=
  BoundArrays [zero; ninf; ninf] [pinf; zero; pinf].

Definition poly_bounds : Bounds := BoundScalars ninf pinf.

(** ** fitExponential (lines 71-120) *)
Definition fitExponential (x y : Array) (p0 : option Array)
  : Fit FitParametersTuple :=
  let p0 := p0_or_default p0 in
  try_except
    ('(expParams, expCov) <- curve_fit f_exponential x y p0 exp_bounds ;;
     expStdDev <- lift (covToStdDev expCov) ;;
     ret (expParams, expStdDev))%fit
    is_RuntimeError_or_OptimizeWarning
    (fun err =>
       raise (RuntimeError
                ("Exponential fit failed with p0=" ++ str_p0 p0 ++ ".")
                (Some err))).

(** ** fitPolynomial (lines 126-176) *)
Definition fitPolynomial (x y : Array) (p0 : option Array)
  : Fit FitParametersTuple :=
  let p0 := poly_p0_or_default p0 in
  try_except
    ('(polyParams, polyCov) <-
        curve_fit f_polynomial x y p0 poly_bounds ;;
     polyStdDev <- lift (covToStdDev polyCov) ;;
     ret (polyParams, polyStdDev))%fit
    is_RuntimeError_or_OptimizeWarning
    (fun err =>
       raise (RuntimeError
                ("Polynomial fit failed with p0=" ++ str_p0 p0 ++ ".")
                (Some err))).

(** ** diffExpPoly (lines 182-189); [*expParams] must give the three
    arguments [a, b, c]. *)
Definition diffExpPoly (x expParams polyParams : Array) : result Array :=
  match expParams with
  | [a; b; c] =>
      e <- exponential x a b c ;;
      p <- polynomial x polyParams ;;
      d <- Ufunc.subtract e p ;;
      Ok (Ufunc.absolute d)
  | _ => Raise (TypeError "exponential() takes 4 positional arguments")
  end.

(** Lines 386-394: the ranking of the peaks of the difference curve. *)
Definition rankPeaks (diffArray : Array) : list Z :=
  let maxIndexes := map Z.of_nat (Scipy.find_peaks diffArray) in
  sorted_reverse (fun i => Scipy.at_ diffArray (Z.to_nat i)) maxIndexes.

(** ** findMaxDivergencePeaks (lines 349-406) *)
Definition findMaxDivergencePeaks_kw (x : Array)
    (expTuple polyTuple : FitParametersTuple) : result (list Z) :=
  let '(expParams, polyParams) := (fst expTuple, fst polyTuple) in
  diffArray <- diffExpPoly x expParams polyParams ;;
  Ok (rankPeaks diffArray).

Definition findMaxDivergencePeaks (x : Array) (args : PeaksArgs)
  : Fit (list Z) :=
  match args with
  | Prefitted expTuple polyTuple =>
      lift (findMaxDivergencePeaks_kw x expTuple polyTuple)
  | RawSeries y =>
      (expTuple <- fitExponential x y None ;;
       polyTuple <- fitPolynomial x y None ;;
       lift (findMaxDivergencePeaks_kw x expTuple polyTuple))%fit
  | OtherArgs =>
      raise (ValueError
        ("Usage: findMaxDivergencePeaks(x: array, expTuple=expTuple,"
         ++ "polyTuple=polyTuple) or findMaxDivergencePeaks(x: array, y: array)."
         ++ "Please refer to the documentation for more information."))
  end.

(** ** fitRCRT (lines 195-279)

    The function calls itself on line 252 with one item of the list and the
    current [p0], and on line 279 with the list of peaks and no [p0].  The
    peaks are ints (line 392), and for an int the call of line 252 is the
    branch of lines 259-270: [fitRCRT_int] is that branch, [fitRCRT_for] the
    loop over ints and [fitRCRT_list] the branch for a list of ints.  The
    function itself recurses on the items of a list of any values. *)

(** Lines 259-270; [p0] has its default already. *)
Definition fitRCRT_int (x y : Array) (p0 : Array) (maxDivIndex : Z)
  : Fit (FitParametersTuple * Z) :=
  try_except
    (r <- fitExponential (slice_to x maxDivIndex) (slice_to y maxDivIndex)
            (Some p0) ;;
     ret (r, maxDivIndex))%fit
    is_RuntimeError
    (fun err =>
       raise (RuntimeError
                ("rCRT fit failed on maxDivIndex=" ++ str_int maxDivIndex
                 ++ " and p0=" ++ str_p0 p0)
                (Some err))).

(** Lines 248-254: the loop over the candidates. *)
Fixpoint fitRCRT_for (x y : Array) (p0 : Array) (rest : list Z)
    (otherwise : Fit (FitParametersTuple * Z))
  : Fit (FitParametersTuple * Z) :=
  match rest with
  | [] => otherwise
  | maxDivIndex :: rest' =>
      try_except (fitRCRT_int x y p0 maxDivIndex)
        is_RuntimeError
        (fun _ => fitRCRT_for x y p0 rest' otherwise)
  end.

(** Lines 245-258.  The second literal of the message on line 257 has no
    [f] prefix. *)
Definition fitRCRT_list (x y : Array) (p0 : Array) (maxDivList : list Z)
  : Fit (FitParametersTuple * Z) :=
  fitRCRT_for x y p0 maxDivList
    (raise (RuntimeError
              ("rCRT fit failed on all maxDivIndexes ("
               ++ str_list str_int maxDivList ++ "),"
               ++ " with p0={p0}.")
              None)).

(** The same loop (lines 248-254) over items of any kind; [attempt] is the
    call of line 252. *)
Definition for_each {A B} (attempt : A -> Fit B) : list A -> Fit B -> Fit B :=
  fix loop (rest : list A) (otherwise : Fit B) : Fit B :=
    match rest with
    | [] => otherwise
    | item :: rest' =>
        try_except (attempt item) is_RuntimeError
          (fun _ => loop rest' otherwise)
    end.

(** [repr] of a value of [maxDiv], as the f-string of line 257 prints the
    items of the list. *)
Fixpoint repr_maxDiv (maxDiv : MaxDiv) : string :=
  match maxDiv with
  | MaxDivNone => "None"
  | MaxDivInt maxDivIndex => str_int maxDivIndex
  | MaxDivList maxDivList => str_list str_int maxDivList
  | MaxDivMixed items => str_list repr_maxDiv items
  | MaxDivFloat v => repr_float v
  | MaxDivObject _ repr => repr
  end.

(** The message of lines 271-274. *)
Definition invalid_type_msg (type_name : string) : string :=
  ("Invalid type of <class '" ++ type_name
   ++ "'> for maxDiv. Valid types: int, list of "
   ++ "ints or None. Please refer to the documentation for usage instructions.")%string.

Fixpoint fitRCRT (x y : Array) (p0 : option Array) (maxDiv : MaxDiv)
    {struct maxDiv} : Fit (FitParametersTuple * Z) :=
  let p0' := p0_or_default p0 in
  match maxDiv with
  | MaxDivList maxDivList => fitRCRT_list x y p0' maxDivList
  | MaxDivMixed items =>
      for_each (fun maxDivIndex => fitRCRT x y (Some p0') maxDivIndex) items
        (raise (RuntimeError
                  ("rCRT fit failed on all maxDivIndexes ("
                   ++ str_list repr_maxDiv items ++ "),"
                   ++ " with p0={p0}.")
                  None))
  | MaxDivInt maxDivIndex => fitRCRT_int x y p0' maxDivIndex
  | MaxDivNone =>
      (maxDiv' <- findMaxDivergencePeaks x (RawSeries y) ;;
       fitRCRT_list x y (p0_or_default None) maxDiv')%fit
  | MaxDivFloat _ => raise (TypeError (invalid_type_msg "float"))
  | MaxDivObject type_name _ => raise (TypeError (invalid_type_msg type_name))
  end.

End Fitting.

End CurveFitting.

Import CurveFitting.

(** * Vocabulary of the statements *)

Definition sign_bit (x : float) : bool :=
  match x with
  | S754_zero s | S754_infinity s | S754_finite s _ _ => s
  | S754_nan => false
  end.

(** No operation of lines 315-316 raises a floating-point status flag. *)
Definition rCRT_quiet (b s : float) : Prop :=
  let rCRT := div (of_Z (-1)) b in
  div_flag (of_Z (-1)) b = None
  /\ mul_flag (of_Z (-2)) rCRT = None
  /\ div_flag s b = None
  /\ mul_flag (mul (of_Z (-2)) rCRT) (div s b) = None.

(** The smallest positive binary64 number, [5e-324]. *)
Definition tiny : float := S754_finite false 1 (-1074).

(** The position of [r] between [lo] and [hi], as a [location] records it:
    at [lo], below the middle, at the middle or above it. *)
Definition located (r lo hi : Q) (l : location) : Prop :=
  match l with
  | loc_Exact => (r == lo)%Q
  | loc_Inexact Lt => (lo < r /\ 2 * r < lo + hi)%Q
  | loc_Inexact Eq => (2 * r == lo + hi)%Q
  | loc_Inexact Gt => (lo + hi < 2 * r /\ r < hi)%Q
  end.

(** [m] and [l] are the truncation of [r] at the exponent [e]: [r] is in
    [[m * 2^e, (m+1) * 2^e)] at the position [l]. *)
Definition bracket (r : Q) (m e : Z) (l : location) : Prop :=
  located r (inject_Z m * 2 ^ e)%Q (inject_Z (m + 1) * 2 ^ e)%Q l.

(** The rational number that a finite binary64 number stands for; [0] for
    infinities and NaN. *)
Definition value (x : float) : Q :=
  match x with
  | S754_finite s m e => (inject_Z (cond_Zopp s (Z.pos m)) * 2 ^ e)%Q
  | _ => 0%Q
  end.

(** The product [k * x] is exact: its value is the product of the values,
    and it is finite when [x] is. *)
Definition exact_product (k x : float) : bool :=
  Bool.eqb (is_finite (mul k x)) (is_finite x)
  && Qeq_bool (value (mul k x)) (value k * value x).

(** The computed products [k * s] and [k * b] are in the ratio of [s] and
    [b]: each is finite when its factor is, [k * b] is not zero, and the
    values satisfy [(k*s) * b = s * (k*b)]. *)
Definition keeps_ratio (k b s : float) : bool :=
  Bool.eqb (is_finite (mul k b)) (is_finite b)
  && negb (is_zero (mul k b))
  && Bool.eqb (is_finite (mul k s)) (is_finite s)
  && Qeq_bool (value (mul k s) * value b) (value s * value (mul k b)).

(** The samples [l..r] of [d] are a peak as the peak finder sees one: a run
    of equal samples, not at either end of [d], with a lower sample just
    before and a lower sample just after.  A sample higher than both its
    neighbours is the case [l = r]. *)
Definition plateau_peak (d : Array) (l r : nat) : Prop :=
  (1 <= l)%nat /\ (l <= r)%nat /\ (r + 1 < length d)%nat
  /\ ltb (Scipy.at_ d (l - 1)) (Scipy.at_ d l) = true
  /\ (forall j, (l < j <= r)%nat ->
                eqb (Scipy.at_ d j) (Scipy.at_ d l) = true)
  /\ ltb (Scipy.at_ d (r + 1)) (Scipy.at_ d l) = true.

(** The value of the difference curve at an index of the result. *)
Definition value_at (d : Array) (i : Z) : float := Scipy.at_ d (Z.to_nat i).

(** [a] may come before [b] in descending order of the keys. *)
Definition before {A} (key : A -> float) (a b : A) : Prop :=
  leb (key b) (key a) = true.

(** [i] may come before [j] in descending order of the curve. *)
Definition descending (d : Array) : Z -> Z -> Prop := before (value_at d).

(** The record of one exponential fit and of one polynomial fit. *)
Definition exp_call (x y p0 : Array) : Call :=
  mkCall f_exponential x y p0 exp_bounds.

Definition poly_call (x y p0 : Array) : Call :=
  mkCall f_polynomial x y p0 poly_bounds.

(** The exponential fit a candidate index asks for. *)
Definition candidate_call (x y p0 : Array) (idx : Z) : Call :=
  exp_call (slice_to x idx) (slice_to y idx) p0.

(** A fit failure: the [RuntimeError] of lines 120 and 176. *)
Definition fit_failure {A} (r : result A) : Prop :=
  exists msg cause, r = Raise (RuntimeError msg cause).


Definition is_TypeError (e : exn) : bool :=
  match e with TypeError _ => true | _ => false end.

(** The message of lines 256-258 as Python builds it: an f-string followed by
    a plain literal. *)
Definition all_failed_msg (maxDivList : list Z) : string :=
  ("rCRT fit failed on all maxDivIndexes (" ++ str_list str_int maxDivList
   ++ "), with p0={p0}.")%string.

Section FitVocabulary.

Variable curve_fit_run : ModelFn -> Array -> Array -> Array -> Bounds -> Outcome.
Variable repr_float : float -> string.

(** The outcome of the exponential fit on the candidate [idx]. *)
Definition candidate_fit (x y p0 : Array) (idx : Z) : result FitParametersTuple :=
  fst (fitExponential curve_fit_run repr_float
         (slice_to x idx) (slice_to y idx) (Some p0) []).

(** The messages of lines 120 and 176. *)
Definition exp_failure_msg (p0 : option Array) : string :=
  ("Exponential fit failed with p0="
   ++ str_p0 repr_float (p0_or_default p0) ++ ".")%string.

Definition poly_failure_msg (p0 : option Array) : string :=
  ("Polynomial fit failed with p0="
   ++ str_p0 repr_float (poly_p0_or_default p0) ++ ".")%string.

End FitVocabulary.

(** ** Data of the examples *)

(** A solver that converges on ten samples and on nothing else. *)
Definition solver_on_ten (f : ModelFn) (xdata ydata p0 : Array) (bounds : Bounds)
  : Outcome :=
  if Nat.eqb (length xdata) 10
  then Returns [one; of_Z (-1); zero]
               [[one; zero; zero]; [zero; one; zero]; [zero; zero; one]]
  else Raises (RuntimeError "Optimal parameters not found" None).

(** A solver that cannot estimate the covariance. *)
Definition solver_warning (f : ModelFn) (xdata ydata p0 : Array) (bounds : Bounds)
  : Outcome :=
  Warns (OptimizeWarning "Covariance of the parameters could not be estimated").

(** A solver during whose run the model overflows: NumPy's warning, not the
    optimizer's. *)
Definition solver_overflows (f : ModelFn) (xdata ydata p0 : Array) (bounds : Bounds)
  : Outcome :=
  Warns (RuntimeWarning Overflow).

(** The exponential where the examples evaluate it: [exp(0) = 1]. *)
Definition exp_at_zero (v : float) : float :=
  if is_zero v then one else nan.

(** The [repr] of the floats the examples print: [0.0], [1.0] and [-0.3]. *)
Definition repr_few (v : float) : string :=
  if eqb v zero then "0.0"
  else if eqb v one then "1.0"
  else if eqb v (decimal (-3) 1) then "-0.3"
  else "?".

(** The largest binary64 number, [1.7976931348623157e308]. *)
Definition huge : float := S754_finite false 9007199254740991 971.

(** Fifteen samples [0.0, 1.0, ..., 14.0]. *)
Definition fifteen : Array := map (fun n => of_Z (Z.of_nat n)) (seq 0 15).

(** The parabola [2x - x^2] has the value [0.75] at both [0.5] and [1.5]. *)
Definition flat_x : Array := [zero; decimal 5 1; decimal 15 1; of_Z 2].
Definition flat_exp : FitParametersTuple := ([zero; zero; zero], [zero; zero; zero]).
Definition flat_poly : FitParametersTuple :=
  ([zero; of_Z 2; of_Z (-1)], [zero; zero; zero]).

(** The parabola [4x - x^2] on [0, 1, 2, 3, 4]. *)
Definition hill_x : Array := map of_Z [0; 1; 2; 3; 4].
Definition hill_poly : FitParametersTuple :=
  ([zero; of_Z 4; of_Z (-1)], [zero; zero; zero]).

(** ** Vocabulary of the further properties *)

(** The message of lines 268-270. *)
Definition int_failed_msg (repr_float : float -> string) (p0 : Array) (idx : Z)
  : string :=
  ("rCRT fit failed on maxDivIndex=" ++ str_int idx
   ++ " and p0=" ++ str_p0 repr_float p0)%string.

(** Items with equal keys are in the order [ltA]. *)
Definition tie_order {A} (key : A -> float) (ltA : A -> A -> Prop) (a b : A)
  : Prop :=
  eqb (key a) (key b) = true -> ltA a b.

Module FullFit.

Section FullFitVocabulary.

Variable curve_fit_run : ModelFn -> Array -> Array -> Array -> Bounds -> Outcome.
Variable repr_float : float -> string.

(** The two fits of lines 398-399: on the whole series, with the default
    initial guesses. *)
Definition full_exp_fit (x y : Array) : result FitParametersTuple :=
  fst (fitExponential curve_fit_run repr_float x y None []).

Definition full_poly_fit (x y : Array) : result FitParametersTuple :=
  fst (fitPolynomial curve_fit_run repr_float x y None []).

End FullFitVocabulary.

End FullFit.

Import FullFit.

(** The solver calls of those two fits. *)
Definition full_calls (x y : Array) : list Call :=
  [exp_call x y (p0_or_default None); poly_call x y (poly_p0_or_default None)].

(** *** Data of the further examples *)

Definition identity3 : list Array :=
  [[one; zero; zero]; [zero; one; zero]; [zero; zero; one]].

(** A solver that refuses empty data, converges on ten samples and on
    nothing else. *)
Definition solver_rejects_empty (f : ModelFn) (xdata ydata p0 : Array)
    (bounds : Bounds) : Outcome :=
  if Nat.eqb (length xdata) 0
  then Raises (ValueError "`ydata` must not be empty!")
  else solver_on_ten f xdata ydata p0 bounds.

(** A solver whose covariance has a negative variance. *)
Definition solver_negative_variance (f : ModelFn) (xdata ydata p0 : Array)
    (bounds : Bounds) : Outcome :=
  Returns [one; of_Z (-1); zero]
          [[one; zero; zero]; [zero; of_Z (-1); zero]; [zero; zero; one]].

(** A solver that always finds the null exponential and the given polynomial. *)
Definition solver_finds (coefs : Array) (f : ModelFn) (xdata ydata p0 : Array)
    (bounds : Bounds) : Outcome :=
  match f with
  | f_exponential => Returns [zero; zero; zero] identity3
  | f_polynomial => Returns coefs (map (fun _ => map (fun _ => one) coefs) coefs)
  end.

(** The line [x] and the cubic [(x-1)(x-3)(x-5)]. *)
Definition line_coefs : Array := [zero; one].
Definition cubic_coefs : Array := map of_Z [-15; 23; -9; 1].
Definition seven : Array := map of_Z [0; 1; 2; 3; 4; 5; 6].

(** * Properties *)

(** ** Facts about binary64 *)

Module Float64Facts.

(** Rounding to nearest-even is symmetric: the sign only passes through. *)
Lemma binary_round_aux_negb (s : bool) (m e : Z) (l : location) :
  binary_round_aux prec emax (negb s) m e l
  = SFopp (binary_round_aux prec emax s m e l).
Proof.
  unfold binary_round_aux.
  destruct (shr_fexp prec emax m e l) as [mrs' e'].
  destruct (shr_fexp prec emax _ e' loc_Exact) as [mrs'' e''].
  destruct (shr_m mrs''); [reflexivity | | reflexivity].
  destruct (e'' <=? emax - prec); reflexivity.
Qed.

Lemma binary_round_aux_sign (s : bool) (m e : Z) (l : location) :
  is_nan (binary_round_aux prec emax s m e l) = false ->
  sign_bit (binary_round_aux prec emax s m e l) = s.
Proof.
  unfold binary_round_aux.
  destruct (shr_fexp prec emax m e l) as [mrs' e'].
  destruct (shr_fexp prec emax _ e' loc_Exact) as [mrs'' e''].
  destruct (shr_m mrs''); [reflexivity | | discriminate].
  destruct (e'' <=? emax - prec); reflexivity.
Qed.

Lemma xorb_negb_l (a b : bool) : xorb (negb a) b = negb (xorb a b).
Proof. destruct a, b; reflexivity. Qed.

Lemma xorb_negb_r (a b : bool) : xorb a (negb b) = negb (xorb a b).
Proof. destruct a, b; reflexivity. Qed.

Lemma mul_opp_l (x y : float) : mul (opp x) y = opp (mul x y).
Proof.
  destruct x, y; cbn; rewrite ?xorb_negb_l; try reflexivity.
  apply binary_round_aux_negb.
Qed.

Lemma mul_opp_r (x y : float) : mul x (opp y) = opp (mul x y).
Proof.
  destruct x, y; cbn; rewrite ?xorb_negb_r; try reflexivity.
  apply binary_round_aux_negb.
Qed.

Lemma div_opp_l (x y : float) : div (opp x) y = opp (div x y).
Proof.
  destruct x, y; cbn; rewrite ?xorb_negb_l; try reflexivity.
  destruct (SFdiv_core_binary prec emax (Z.pos m) e (Z.pos m0) e0) as [[mz ez] lz].
  apply binary_round_aux_negb.
Qed.

Lemma div_opp_r (x y : float) : div x (opp y) = opp (div x y).
Proof.
  destruct x, y; cbn; rewrite ?xorb_negb_r; try reflexivity.
  destruct (SFdiv_core_binary prec emax (Z.pos m) e (Z.pos m0) e0) as [[mz ez] lz].
  apply binary_round_aux_negb.
Qed.

Lemma abs_sign (x : float) : abs x = if sign_bit x then opp x else x.
Proof. destruct x as [[|]|[|]| |[|] m e]; reflexivity. Qed.

Lemma div_sign (x y : float) :
  is_nan (div x y) = false ->
  sign_bit (div x y) = xorb (sign_bit x) (sign_bit y).
Proof.
  destruct x, y; cbn; try reflexivity; try discriminate.
  destruct (SFdiv_core_binary prec emax (Z.pos m) e (Z.pos m0) e0) as [[mz ez] lz].
  apply binary_round_aux_sign.
Qed.

Lemma mul_nan_r (x : float) : mul x nan = nan.
Proof. destruct x; reflexivity. Qed.

Lemma is_nan_eq (x : float) : is_nan x = true -> x = nan.
Proof. destruct x; try discriminate; reflexivity. Qed.

(** The uncertainty as the code computes it, [-2 * rCRT * (s / b)], is the
    same binary64 number as [2 * |rCRT| * (s / |b|)]. *)
Lemma uncertainty_forms (b s : float) :
  let rCRT := div (of_Z (-1)) b in
  mul (mul (of_Z (-2)) rCRT) (div s b)
  = mul (mul (of_Z 2) (abs rCRT)) (div s (abs b)).
Proof.
  intros rCRT.
  change (of_Z (-2)) with (opp (of_Z 2)).
  rewrite mul_opp_l, mul_opp_l.
  destruct (is_nan rCRT) eqn:Hnan.
  - apply is_nan_eq in Hnan. rewrite Hnan. cbn [abs SFabs nan].
    change S754_nan with nan. rewrite mul_nan_r. reflexivity.
  - pose proof (div_sign (of_Z (-1)) b Hnan) as Hs.
    fold rCRT in Hs. change (sign_bit (of_Z (-1))) with true in Hs.
    rewrite (abs_sign rCRT), (abs_sign b), Hs.
    destruct (sign_bit b); cbn [xorb negb].
    + rewrite div_opp_r, mul_opp_r. reflexivity.
    + rewrite mul_opp_r, mul_opp_l. reflexivity.
Qed.


(** *** The order of binary64 *)

Lemma compare_antisym (a b : float) :
  SFcompare b a = option_map CompOpp (SFcompare a b).
Proof.
  destruct a as [sa | sa | | sa ma ea], b as [sb | sb | | sb mb eb];
    cbn; try reflexivity;
    try (destruct sa; reflexivity); try (destruct sb; reflexivity);
    try (destruct sa, sb; reflexivity).
  rewrite (Z.compare_antisym ea eb).
  assert (H : PosDef.Pos.compare_cont Eq mb ma
              = CompOpp (PosDef.Pos.compare_cont Eq ma mb))
    by (symmetry; apply (Pos.compare_cont_antisym ma mb Eq)).
  rewrite H.
  destruct sa, sb; cbn; try reflexivity;
    destruct (ea ?= eb)%Z; cbn; try reflexivity.
Qed.

Lemma eqb_true (a b : float) :
  eqb a b = true -> (is_zero a = true /\ is_zero b = true) \/ a = b.
Proof.
  unfold eqb, SFeqb.
  destruct a as [sa | sa | | sa ma ea], b as [sb | sb | | sb mb eb];
    cbn; try discriminate; try (destruct sa; discriminate);
    try (destruct sb; discriminate).
  - intros _. left. split; reflexivity.
  - destruct sa, sb; try discriminate; intros _; right; reflexivity.
  - destruct sa, sb; try discriminate;
      destruct (ea ?= eb)%Z eqn:He; try discriminate;
      destruct (Pos.compare_cont Eq ma mb) eqn:Hm; try discriminate;
      intros _; right;
      apply Z.compare_eq in He; apply Pos.compare_eq in Hm; subst; reflexivity.
Qed.

Lemma compare_congr_r (a b c : float) :
  eqb b c = true -> SFcompare a b = SFcompare a c.
Proof.
  intros H. destruct (eqb_true b c H) as [[Hb Hc] | ->]; [| reflexivity].
  destruct b; try discriminate. destruct c; try discriminate.
  destruct a; reflexivity.
Qed.

Lemma compare_congr_l (a b c : float) :
  eqb b c = true -> SFcompare b a = SFcompare c a.
Proof.
  intros H. rewrite (compare_antisym a b), (compare_antisym a c).
  rewrite (compare_congr_r a b c H). reflexivity.
Qed.

Lemma ltb_not_eqb (a b : float) : ltb a b = true -> eqb a b = false.
Proof. unfold ltb, eqb, SFltb, SFeqb. destruct (SFcompare a b) as [[]|]; easy. Qed.

Lemma eqb_refl_r (a b : float) : eqb a b = true -> eqb b b = true.
Proof.
  intros H. unfold eqb, SFeqb in *.
  rewrite <- (compare_congr_l b a b H). exact H.
Qed.

Lemma eqb_refl (b : float) : is_nan b = false -> eqb b b = true.
Proof.
  unfold eqb, SFeqb.
  destruct b as [sb | sb | | sb mb eb]; cbn; try discriminate; intros _;
    try (destruct sb; reflexivity).
  assert (H : PosDef.Pos.compare_cont Eq mb mb = Eq)
    by apply (Pos.compare_cont_refl mb Eq).
  rewrite Z.compare_refl, H. destruct sb; reflexivity.
Qed.

Lemma ltb_refl_r (a b : float) : ltb a b = true -> eqb b b = true.
Proof.
  intros H. apply eqb_refl. destruct b; try reflexivity.
  destruct a; discriminate.
Qed.

(** Two samples equal to a third are not in strict order. *)
Lemma eqb_eqb_not_ltb (a b c : float) :
  eqb a c = true -> eqb b c = true -> ltb a b = false.
Proof.
  intros Ha Hb. unfold ltb, SFltb. rewrite (compare_congr_r a b c Hb).
  unfold eqb, SFeqb in Ha. destruct (SFcompare a c) as [[]|]; easy.
Qed.

Lemma ltb_eqb_not_ltb (a b c : float) :
  ltb a c = true -> eqb b c = true -> ltb b a = false.
Proof.
  intros Ha Hb. unfold ltb, SFltb in *. rewrite (compare_congr_l a b c Hb).
  rewrite (compare_antisym a c). destruct (SFcompare a c) as [[]|]; easy.
Qed.

Lemma not_ltb_leb (a b : float) :
  eqb a a = true -> eqb b b = true -> ltb a b = false -> leb b a = true.
Proof.
  unfold ltb, leb, SFltb, SFleb. rewrite (compare_antisym a b).
  intros Ha Hb.
  assert (SFcompare a b <> None).
  { destruct a, b; cbn; try discriminate. }
  destruct (SFcompare a b) as [[]|]; cbn; easy.
Qed.

Lemma ltb_leb (a b : float) : ltb a b = true -> leb a b = true.
Proof. unfold ltb, leb, SFltb, SFleb. destruct (SFcompare a b) as [[]|]; easy. Qed.

Lemma leb_trans (a b c : float) :
  leb a b = true -> leb b c = true -> leb a c = true.
Proof.
  unfold leb, SFleb.
  destruct a as [sa | sa | | sa ma ea], b as [sb | sb | | sb mb eb],
    c as [sc | sc | | sc mc ec]; cbn; try discriminate; try reflexivity;
    try (destruct sa; try discriminate; try reflexivity);
    try (destruct sb; try discriminate; try reflexivity);
    try (destruct sc; try discriminate; try reflexivity).
  all: change (PosDef.Pos.compare_cont Eq) with Pos.compare.
  all: destruct (Z.compare_spec ea eb), (Z.compare_spec eb ec),
         (Z.compare_spec ea ec); try discriminate; try reflexivity; try lia;
       subst.
  all: destruct (Pos.compare_spec ma mb), (Pos.compare_spec mb mc),
         (Pos.compare_spec ma mc); cbn; try discriminate; try reflexivity; try lia.
Qed.

Lemma ltb_asym (a b : float) : ltb a b = true -> ltb b a = false.
Proof.
  unfold ltb, SFltb. rewrite (compare_antisym a b).
  destruct (SFcompare a b) as [[]|]; easy.
Qed.

Lemma eqb_not_nan_l (a b : float) : eqb a b = true -> is_nan a = false.
Proof. destruct a; try reflexivity. discriminate. Qed.

End Float64Facts.

Import Float64Facts.

(** ** More facts about binary64 *)

Module Float64More.

(** A mantissa that is not negative never rounds to NaN. *)
Lemma iter_pos_invariant {A} (P : A -> Prop) (f : A -> A) :
  (forall a, P a -> P (f a)) ->
  forall n a, P a -> P (iter_pos f n a).
Proof.
  intros Hf. induction n as [n IH | n IH |]; intros a Ha; cbn.
  - apply IH, IH, Hf, Ha.
  - apply IH, IH, Ha.
  - apply Hf, Ha.
Qed.

Lemma shr_1_nonneg (mrs : shr_record) : 0 <= shr_m mrs -> 0 <= shr_m (shr_1 mrs).
Proof.
  destruct mrs as [m r s]. cbn. intros H.
  destruct m as [| [p | p |] | p]; cbn; lia.
Qed.

Lemma shr_fexp_nonneg (m e : Z) (l : location) :
  0 <= m -> 0 <= shr_m (fst (shr_fexp prec emax m e l)).
Proof.
  intros H. unfold shr_fexp, shr.
  assert (H0 : 0 <= shr_m (shr_record_of_loc m l))
    by (destruct l as [| []]; exact H).
  destruct (fexp prec emax (Zdigits2 m + e) - e) as [| p | p]; cbn [fst];
    try exact H0.
  apply (iter_pos_invariant (fun mrs => 0 <= shr_m mrs)); [| exact H0].
  apply shr_1_nonneg.
Qed.

Lemma round_nearest_even_nonneg (m : Z) (l : location) :
  0 <= m -> 0 <= round_nearest_even m l.
Proof.
  intros H. destruct l as [| []]; cbn; try lia.
  destruct (Z.even m); lia.
Qed.

Lemma binary_round_aux_not_nan (s : bool) (m e : Z) (l : location) :
  0 <= m -> is_nan (binary_round_aux prec emax s m e l) = false.
Proof.
  intros H. unfold binary_round_aux.
  pose proof (shr_fexp_nonneg m e l H) as H1.
  destruct (shr_fexp prec emax m e l) as [mrs' e']. cbn [fst] in H1.
  pose proof (shr_fexp_nonneg _ e' loc_Exact
                (round_nearest_even_nonneg _ (loc_of_shr_record mrs') H1)) as H2.
  destruct (shr_fexp prec emax _ e' loc_Exact) as [mrs'' e'']. cbn [fst] in H2.
  destruct (shr_m mrs''); [reflexivity | | lia].
  destruct (e'' <=? emax - prec); reflexivity.
Qed.

Lemma mul_not_nan (x y : float) :
  is_nan x = false -> is_nan y = false -> mul_flag x y <> Some Invalid ->
  is_nan (mul x y) = false.
Proof.
  unfold mul_flag.
  destruct x as [sx | sx | | sx mx ex], y as [sy | sy | | sy my ey];
    cbn; intros Hx Hy Hf; try discriminate; try reflexivity;
    try (exfalso; apply Hf; reflexivity).
  apply binary_round_aux_not_nan. lia.
Qed.

Lemma div_not_nan (x y : float) :
  is_nan x = false -> is_nan y = false -> div_flag x y <> Some Invalid ->
  is_nan (div x y) = false.
Proof.
  unfold div_flag.
  destruct x as [sx | sx | | sx mx ex], y as [sy | sy | | sy my ey];
    cbn; intros Hx Hy Hf; try discriminate; try reflexivity;
    try (exfalso; apply Hf; reflexivity).
  unfold SFdiv_core_binary.
  set (m' := match _ with Z0 => Z.pos mx | Zpos _ => _ | Zneg _ => 0 end).
  assert (Hm' : 0 <= m').
  { unfold m'. destruct (_ - _ - _); try lia. apply Z.shiftl_nonneg. lia. }
  pose proof (Z_div_mod m' (Z.pos my) ltac:(lia)) as Hdm.
  destruct (Z.div_eucl m' (Z.pos my)) as [q r].
  apply binary_round_aux_not_nan. nia.
Qed.

Lemma sqrt_not_nan (x : float) :
  ltb x zero = false -> is_nan x = false -> is_nan (sqrt x) = false.
Proof.
  destruct x as [sx | sx | | sx mx ex]; cbn; try discriminate; try reflexivity.
  - destruct sx; [discriminate | reflexivity].
  - destruct sx; [discriminate |]. intros _ _.
    unfold SFsqrt_core_binary.
    set (m' := match _ with Z0 => Z.pos mx | Zpos _ => _ | Zneg _ => 0 end).
    pose proof (Z.sqrtrem_spec m') as Hs.
    assert (Hm' : 0 <= m').
    { unfold m'. destruct (_ - _ * _); try lia. apply Z.shiftl_nonneg. lia. }
    specialize (Hs Hm').
    destruct (Z.sqrtrem m') as [q r].
    apply binary_round_aux_not_nan. lia.
Qed.

Lemma sqrt_flag_spec (v : float) :
  sqrt_flag v = if ltb v zero then Some Invalid else None.
Proof.
  unfold sqrt_flag.
  destruct (ltb v zero) eqn:Hlt.
  - destruct v as [s | s | | s m e]; try discriminate.
    + destruct s; [reflexivity | discriminate].
    + destruct s; [reflexivity | discriminate].
  - destruct (is_nan v) eqn:Hn; [reflexivity |].
    rewrite (sqrt_not_nan v Hlt Hn). reflexivity.
Qed.

Lemma mul_sign (x y : float) :
  is_nan (mul x y) = false ->
  sign_bit (mul x y) = xorb (sign_bit x) (sign_bit y).
Proof.
  destruct x, y; cbn; try reflexivity; try discriminate.
  apply binary_round_aux_sign.
Qed.

Lemma positive_sign_leb (v : float) :
  is_nan v = false -> sign_bit v = false -> leb zero v = true.
Proof. destruct v as [s | s | | s m e]; cbn; try discriminate; intros _ ->; reflexivity. Qed.

Lemma positive_sign_not_ltb (v : float) : sign_bit v = false -> ltb v zero = false.
Proof. destruct v as [s | s | | s m e]; cbn; try reflexivity; intros ->; reflexivity. Qed.

Lemma leb_zero_cases (s : float) :
  leb zero s = true -> is_nan s = false /\ (sign_bit s = false \/ is_zero s = true).
Proof.
  destruct s as [sg | sg | | sg m e]; cbn; try discriminate.
  - intros _. split; [reflexivity | right; reflexivity].
  - destruct sg; [discriminate |]. intros _. split; [reflexivity | left; reflexivity].
  - destruct sg; [discriminate |]. intros _. split; [reflexivity | left; reflexivity].
Qed.

Lemma is_nan_opp (x : float) : is_nan (opp x) = is_nan x.
Proof. destruct x; reflexivity. Qed.
Lemma is_inf_opp (x : float) : is_inf (opp x) = is_inf x.
Proof. destruct x; reflexivity. Qed.
Lemma is_zero_opp (x : float) : is_zero (opp x) = is_zero x.
Proof. destruct x; reflexivity. Qed.
Lemma is_finite_opp (x : float) : is_finite (opp x) = is_finite x.
Proof. destruct x; reflexivity. Qed.
Lemma abs_opp (x : float) : abs (opp x) = abs x.
Proof. destruct x; reflexivity. Qed.

Lemma div_flag_opp_l (x y : float) : div_flag (opp x) y = div_flag x y.
Proof.
  unfold div_flag, overflowed.
  rewrite div_opp_l, !is_nan_opp, !is_zero_opp, !is_inf_opp, !is_finite_opp.
  reflexivity.
Qed.

Lemma div_flag_opp_r (x y : float) : div_flag x (opp y) = div_flag x y.
Proof.
  unfold div_flag, overflowed.
  rewrite div_opp_r, !is_nan_opp, !is_zero_opp, !is_inf_opp, !is_finite_opp.
  reflexivity.
Qed.

Lemma eqb_eqb_leb (a b c : float) :
  eqb a c = true -> eqb b c = true -> leb a b = true.
Proof.
  intros Ha Hb. unfold leb, SFleb. rewrite (compare_congr_r a b c Hb).
  unfold eqb, SFeqb in Ha. destruct (SFcompare a c) as [[]|]; easy.
Qed.

Lemma ltb_eqb_leb (a b c : float) :
  ltb a c = true -> eqb b c = true -> leb a b = true.
Proof.
  intros Ha Hb. unfold leb, SFleb. rewrite (compare_congr_r a b c Hb).
  unfold ltb, SFltb in Ha. destruct (SFcompare a c) as [[]|]; easy.
Qed.

Lemma eqb_sym (a b : float) : eqb a b = eqb b a.
Proof.
  unfold eqb, SFeqb. rewrite (compare_antisym b a).
  destruct (SFcompare b a) as [[]|]; reflexivity.
Qed.

Lemma sub_self (v : float) :
  is_nan v = false -> sub_flag v v = None -> sub v v = zero.
Proof.
  destruct v as [s | s | | s m e]; try discriminate.
  - destruct s; reflexivity.
  - destruct s; discriminate.
  - intros _ _. unfold sub, SFsub. rewrite Z.sub_diag. reflexivity.
Qed.

Lemma abs_not_negative (v : float) : ltb (abs v) zero = false.
Proof. destruct v; reflexivity. Qed.

End Float64More.

Import Float64More.


(** ** The binary64 division as a rounding

    [SFdiv] computes a truncated quotient with the position of the exact
    quotient after it, and [binary_round_aux] rounds that to the format.
    Both are followed here on the rational number they stand for: the
    result depends on the quotient of the two values alone. *)

Module Float64Division.

Lemma pow2_pos (e : Z) : (0 < 2 ^ e)%Q.
Proof. apply Qpower_0_lt. reflexivity. Qed.

Lemma pow2_succ (e : Z) : (2 ^ (e + 1) == 2 * 2 ^ e)%Q.
Proof.
  rewrite Qpower_plus by discriminate. rewrite Qpower_1_r. ring.
Qed.

Lemma located_eq (r r' lo hi : Q) (l : location) :
  (r == r')%Q -> located r lo hi l -> located r' lo hi l.
Proof.
  intros E. destruct l as [| []]; cbn; intros H;
    [| | destruct H; split | destruct H; split]; lra.
Qed.

Lemma located_bounds (r lo hi : Q) (l : location) :
  (lo < hi)%Q -> located r lo hi l -> (lo <= r < hi)%Q.
Proof.
  intros Hlt. destruct l as [| []]; cbn; intros H;
    [| | destruct H | destruct H]; split; lra.
Qed.

Lemma located_unique (r lo hi : Q) (l l' : location) :
  (lo < hi)%Q -> located r lo hi l -> located r lo hi l' -> l = l'.
Proof.
  intros Hlt.
  destruct l as [| []]; cbn; intros H; [| | destruct H | destruct H];
    (destruct l' as [| []]; cbn; intros H'; [| | destruct H' | destruct H']);
    try reflexivity; exfalso; lra.
Qed.

Lemma bracket_bounds (r : Q) (m e : Z) (l : location) :
  bracket r m e l ->
  (inject_Z m * 2 ^ e <= r < inject_Z (m + 1) * 2 ^ e)%Q.
Proof.
  apply located_bounds. rewrite inject_Z_plus.
  pose proof (pow2_pos e). change (inject_Z 1) with 1%Q. nra.
Qed.

Lemma bracket_unique (r : Q) (m m' e : Z) (l l' : location) :
  bracket r m e l -> bracket r m' e l' -> m = m' /\ l = l'.
Proof.
  intros H H'.
  pose proof (bracket_bounds _ _ _ _ H) as [B1 B2].
  pose proof (bracket_bounds _ _ _ _ H') as [B1' B2'].
  pose proof (pow2_pos e) as Hu.
  assert (E : m = m').
  { assert (A : (inject_Z m * 2 ^ e < inject_Z (m' + 1) * 2 ^ e)%Q) by lra.
    assert (A' : (inject_Z m' * 2 ^ e < inject_Z (m + 1) * 2 ^ e)%Q) by lra.
    apply Qmult_lt_r in A, A'; try exact Hu.
    rewrite <- Zlt_Qlt in A, A'. lia. }
  subst m'. split; [reflexivity |].
  eapply located_unique; [| exact H | exact H'].
  rewrite inject_Z_plus. change (inject_Z 1) with 1%Q. nra.
Qed.

Lemma inject_Z_xI (p : positive) :
  inject_Z (Z.pos p~1) = (2 * inject_Z (Z.pos p) + 1)%Q.
Proof. rewrite Pos2Z.inj_xI, inject_Z_plus, inject_Z_mult. reflexivity. Qed.

Lemma inject_Z_xO (p : positive) :
  inject_Z (Z.pos p~0) = (2 * inject_Z (Z.pos p))%Q.
Proof. rewrite Pos2Z.inj_xO, inject_Z_mult. reflexivity. Qed.

Ltac qnorm :=
  rewrite ?inject_Z_plus, ?inject_Z_xI, ?inject_Z_xO in *;
  change (inject_Z 0) with 0%Q in *; change (inject_Z 1) with 1%Q in *.

(** One step of the shift. *)
Lemma shr_1_bracket (r : Q) (mrs : shr_record) (e : Z) :
  0 <= shr_m mrs ->
  bracket r (shr_m mrs) e (loc_of_shr_record mrs) ->
  bracket r (shr_m (shr_1 mrs)) (e + 1) (loc_of_shr_record (shr_1 mrs)).
Proof.
  destruct mrs as [m rb sb]. cbn [shr_m]. intros Hm.
  unfold bracket.
  pose proof (pow2_pos e) as Hu. pose proof (pow2_succ e) as Hs.
  set (u := (2 ^ e)%Q) in *. set (u' := (2 ^ (e + 1))%Q) in *.
  destruct m as [| [p | p |] | p]; [| | | | lia];
    destruct rb, sb; cbn [shr_1 shr_m loc_of_shr_record located orb]; intros H;
    [destruct H | | destruct H | | destruct H | | destruct H |
    | destruct H | | destruct H | | destruct H | | destruct H |];
    qnorm; try apply conj; nra.
Qed.

Lemma iter_pos_nat {A} (f : A -> A) (p : positive) (x : A) :
  iter_pos f p x = Nat.iter (Pos.to_nat p) f x.
Proof.
  revert x. induction p as [p IH | p IH |]; intros x; cbn [iter_pos].
  - rewrite !IH, Pos2Nat.inj_xI.
    replace (S (2 * Pos.to_nat p))%nat
      with (Pos.to_nat p + (Pos.to_nat p + 1))%nat by lia.
    rewrite !Nat.iter_add. reflexivity.
  - rewrite !IH, Pos2Nat.inj_xO.
    replace (2 * Pos.to_nat p)%nat with (Pos.to_nat p + Pos.to_nat p)%nat by lia.
    rewrite Nat.iter_add. reflexivity.
  - reflexivity.
Qed.

Lemma iter_shr_1_bracket (r : Q) (n : nat) (mrs : shr_record) (e : Z) :
  0 <= shr_m mrs ->
  bracket r (shr_m mrs) e (loc_of_shr_record mrs) ->
  0 <= shr_m (Nat.iter n shr_1 mrs)
  /\ bracket r (shr_m (Nat.iter n shr_1 mrs)) (e + Z.of_nat n)
       (loc_of_shr_record (Nat.iter n shr_1 mrs)).
Proof.
  intros Hm Hb. induction n as [| n [IH1 IH2]].
  - cbn [Nat.iter]. rewrite Z.add_0_r. split; assumption.
  - cbn [Nat.iter]. split; [apply shr_1_nonneg, IH1 |].
    replace (e + Z.of_nat (S n)) with (e + Z.of_nat n + 1) by lia.
    apply shr_1_bracket; assumption.
Qed.

Lemma loc_of_shr_record_of_loc (m : Z) (l : location) :
  loc_of_shr_record (shr_record_of_loc m l) = l
  /\ shr_m (shr_record_of_loc m l) = m.
Proof. destruct l as [| []]; split; reflexivity. Qed.

Lemma shr_record_eq (a b : shr_record) :
  shr_m a = shr_m b -> loc_of_shr_record a = loc_of_shr_record b -> a = b.
Proof.
  destruct a as [m [] []], b as [m' [] []]; cbn; intros -> H;
    try discriminate; reflexivity.
Qed.

(** The truncation at the exponent of the format keeps the bracket. *)
Lemma shr_fexp_bracket (r : Q) (m e : Z) (l : location) :
  0 <= m -> bracket r m e l ->
  e <= fexp prec emax (Zdigits2 m + e) ->
  snd (shr_fexp prec emax m e l) = fexp prec emax (Zdigits2 m + e)
  /\ 0 <= shr_m (fst (shr_fexp prec emax m e l))
  /\ bracket r (shr_m (fst (shr_fexp prec emax m e l)))
       (fexp prec emax (Zdigits2 m + e))
       (loc_of_shr_record (fst (shr_fexp prec emax m e l))).
Proof.
  intros Hm Hb He. unfold shr_fexp, shr.
  destruct (loc_of_shr_record_of_loc m l) as [El Em].
  destruct (fexp prec emax (Zdigits2 m + e) - e) as [| p | p] eqn:Hn; [| | lia].
  - cbn [fst snd]. rewrite El, Em.
    replace (fexp prec emax (Zdigits2 m + e)) with e by lia.
    repeat split; [lia | exact Hb].
  - cbn [fst snd]. rewrite iter_pos_nat.
    destruct (iter_shr_1_bracket r (Pos.to_nat p) (shr_record_of_loc m l) e)
      as [H1 H2].
    + rewrite Em. exact Hm.
    + rewrite El, Em. exact Hb.
    + rewrite positive_nat_Z in H2.
      replace (fexp prec emax (Zdigits2 m + e)) with (e + Z.pos p) by lia.
      repeat split; [exact H1 | exact H2].
Qed.

(** The number of binary digits. *)
Lemma digits2_pos_bounds (p : positive) :
  2 ^ (Z.pos (digits2_pos p) - 1) <= Z.pos p < 2 ^ Z.pos (digits2_pos p).
Proof.
  induction p as [p IH | p IH |]; cbn [digits2_pos].
  - rewrite Pos2Z.inj_succ, (Pos2Z.inj_xI p).
    replace (Z.succ (Z.pos (digits2_pos p)) - 1)
      with (Z.succ (Z.pos (digits2_pos p) - 1)) by lia.
    rewrite !Z.pow_succ_r by lia. lia.
  - rewrite Pos2Z.inj_succ, (Pos2Z.inj_xO p).
    replace (Z.succ (Z.pos (digits2_pos p)) - 1)
      with (Z.succ (Z.pos (digits2_pos p) - 1)) by lia.
    rewrite !Z.pow_succ_r by lia. lia.
  - change (1 <= 1 < 2). lia.
Qed.

Lemma pow2_inject (n : Z) : 0 <= n -> (inject_Z (2 ^ n) == 2 ^ n)%Q.
Proof. intros H. rewrite Zpower_Qpower by exact H. reflexivity. Qed.

(** A positive mantissa at the exponent [e] lies between two powers of two. *)
Lemma bracket_magnitude (r : Q) (p : positive) (e : Z) (l : location) :
  bracket r (Z.pos p) e l ->
  (2 ^ (Z.pos (digits2_pos p) + e - 1) <= r
   /\ r < 2 ^ (Z.pos (digits2_pos p) + e))%Q.
Proof.
  intros H. apply bracket_bounds in H. destruct H as [H1 H2].
  pose proof (digits2_pos_bounds p) as [D1 D2].
  set (d := Z.pos (digits2_pos p)) in *.
  assert (Hd : 1 <= d) by (unfold d; lia).
  pose proof (pow2_pos e) as Hu.
  rewrite Zle_Qle, pow2_inject in D1 by lia.
  assert (D2' : Z.pos p + 1 <= 2 ^ d) by lia.
  rewrite Zle_Qle, pow2_inject in D2' by lia.
  replace (d + e - 1) with ((d - 1) + e) by lia.
  rewrite !Qpower_plus by discriminate.
  split.
  - apply Qle_trans with (inject_Z (Z.pos p) * 2 ^ e)%Q; [| exact H1].
    apply Qmult_le_compat_r; [exact D1 | lra].
  - apply Qlt_le_trans with (inject_Z (Z.pos p + 1) * 2 ^ e)%Q; [exact H2 |].
    apply Qmult_le_compat_r; [exact D2' | lra].
Qed.

Lemma fexp_emin (x : Z) : x <= emin prec emax + prec -> fexp prec emax x = emin prec emax.
Proof. unfold fexp. lia. Qed.

(** Two brackets of the same number, each at an exponent that the format
    allows, have the same exponent in the format. *)
Lemma bracket_fexp (r : Q) (m e m' e' : Z) (l l' : location) :
  0 <= m -> 0 <= m' ->
  bracket r m e l -> bracket r m' e' l' ->
  e <= fexp prec emax (Zdigits2 m + e) ->
  e' <= fexp prec emax (Zdigits2 m' + e') ->
  fexp prec emax (Zdigits2 m + e) = fexp prec emax (Zdigits2 m' + e').
Proof.
  intros Hm Hm' Hb Hb' He He'.
  destruct m as [| p | p], m' as [| p' | p']; try lia; cbn [Zdigits2] in *.
  - unfold fexp, emin, prec, emax in *. lia.
  - apply bracket_magnitude in Hb'. destruct Hb' as [L' U'].
    apply bracket_bounds in Hb. destruct Hb as [_ U].
    change (inject_Z (0 + 1)) with 1%Q in U.
    assert (A : (2 ^ (Z.pos (digits2_pos p') + e' - 1) < 2 ^ e)%Q) by lra.
    apply Qpower_lt_compat_l_inv in A; [| reflexivity].
    unfold fexp, emin, prec, emax in *. lia.
  - apply bracket_magnitude in Hb. destruct Hb as [L U].
    apply bracket_bounds in Hb'. destruct Hb' as [_ U'].
    change (inject_Z (0 + 1)) with 1%Q in U'.
    assert (A : (2 ^ (Z.pos (digits2_pos p) + e - 1) < 2 ^ e')%Q) by lra.
    apply Qpower_lt_compat_l_inv in A; [| reflexivity].
    unfold fexp, emin, prec, emax in *. lia.
  - apply bracket_magnitude in Hb, Hb'.
    destruct Hb as [L U], Hb' as [L' U'].
    assert (A : (2 ^ (Z.pos (digits2_pos p) + e - 1)
                 < 2 ^ (Z.pos (digits2_pos p') + e'))%Q) by lra.
    assert (A' : (2 ^ (Z.pos (digits2_pos p') + e' - 1)
                  < 2 ^ (Z.pos (digits2_pos p) + e))%Q) by lra.
    apply Qpower_lt_compat_l_inv in A, A'; try reflexivity.
    f_equal. lia.
Qed.

(** The rounding depends on the number alone. *)
Lemma binary_round_aux_bracket (r : Q) (s : bool) (m e m' e' : Z)
    (l l' : location) :
  0 <= m -> 0 <= m' ->
  bracket r m e l -> bracket r m' e' l' ->
  e <= fexp prec emax (Zdigits2 m + e) ->
  e' <= fexp prec emax (Zdigits2 m' + e') ->
  binary_round_aux prec emax s m e l = binary_round_aux prec emax s m' e' l'.
Proof.
  intros Hm Hm' Hb Hb' He He'. unfold binary_round_aux.
  destruct (shr_fexp_bracket r m e l Hm Hb He) as (E1 & N1 & B1).
  destruct (shr_fexp_bracket r m' e' l' Hm' Hb' He') as (E2 & N2 & B2).
  rewrite <- (bracket_fexp r m e m' e' l l') in E2, B2 by assumption.
  destruct (bracket_unique _ _ _ _ _ _ B1 B2) as [Em El].
  destruct (shr_fexp prec emax m e l) as [mrs1 e1].
  destruct (shr_fexp prec emax m' e' l') as [mrs2 e2].
  cbn [fst snd] in *. subst e1 e2.
  rewrite (shr_record_eq mrs1 mrs2 Em El). reflexivity.
Qed.

Lemma quotient_large (m1s m2 q rem P T : Z) :
  m1s = m2 * q + rem -> 0 <= rem < m2 -> P * T <= m1s -> m2 < T -> 0 < P ->
  P <= q.
Proof. intros. nia. Qed.

Lemma digits_large (q k : Z) : 0 <= k -> 2 ^ k <= q -> k + 1 <= Zdigits2 q.
Proof.
  intros Hk Hq. assert (0 < 2 ^ k) by (apply Z.pow_pos_nonneg; lia).
  destruct q as [| p | p]; try lia. cbn [Zdigits2].
  pose proof (digits2_pos_bounds p) as [_ U].
  assert (A : 2 ^ k < 2 ^ Z.pos (digits2_pos p)) by lia.
  apply Z.pow_lt_mono_r_iff in A; lia.
Qed.

(** The quotient that the division hands to the rounding. *)
Lemma SFdiv_core_binary_bracket (m1 m2 : positive) (e1 e2 q e' : Z)
    (l : location) :
  SFdiv_core_binary prec emax (Z.pos m1) e1 (Z.pos m2) e2 = (q, e', l) ->
  0 <= q
  /\ bracket (inject_Z (Z.pos m1) * 2 ^ e1 / (inject_Z (Z.pos m2) * 2 ^ e2))%Q
       q e' l
  /\ e' <= fexp prec emax (Zdigits2 q + e').
Proof.
  unfold SFdiv_core_binary. cbn [Zdigits2].
  set (d1 := Z.pos (digits2_pos m1)). set (d2 := Z.pos (digits2_pos m2)).
  set (D := d1 + e1 - (d2 + e2)).
  set (e0 := Z.min (fexp prec emax D) (e1 - e2)).
  set (s := e1 - e2 - e0).
  assert (Hs : 0 <= s) by (unfold s, e0; lia).
  set (m' := match s with 0 => Z.pos m1 | Z.pos _ => Z.shiftl (Z.pos m1) s
                     | Z.neg _ => 0 end).
  assert (Hm' : m' = Z.pos m1 * 2 ^ s).
  { unfold m'. destruct s as [| p | p] eqn:Es; [cbn; lia | | lia].
    apply Z.shiftl_mul_pow2. lia. }
  clearbody m'.
  pose proof (Z_div_mod m' (Z.pos m2) ltac:(lia)) as Hdiv.
  destruct (Z.div_eucl m' (Z.pos m2)) as [q0 rem]. destruct Hdiv as [Hq Hrem].
  intros H. inversion H; subst q e' l. clear H.
  assert (Hpow : 0 < 2 ^ s) by (apply Z.pow_pos_nonneg; lia).
  assert (Hq0 : 0 <= q0) by nia.
  split; [exact Hq0 |]. split.
  - (* the bracket *)
    pose proof (pow2_pos e0) as Hu. pose proof (pow2_pos e2) as Hp2.
    set (M := inject_Z (Z.pos m2)).
    assert (HM : (0 < M)%Q) by (unfold M; rewrite <- (Zlt_Qlt 0); lia).
    set (t := (2 ^ e0 / M)%Q).
    assert (Ht : (0 < t)%Q).
    { unfold t. apply Qlt_shift_div_l; [exact HM | lra]. }
    assert (Hut : (2 ^ e0 == M * t)%Q) by (unfold t; field; lra).
    assert (HmQ : (inject_Z (Z.pos m1) * 2 ^ s
                   == M * inject_Z q0 + inject_Z rem)%Q).
    { unfold M. rewrite <- pow2_inject by exact Hs.
      rewrite <- !inject_Z_mult, <- inject_Z_plus, <- Hq, Hm'. reflexivity. }
    assert (Hr : (inject_Z (Z.pos m1) * 2 ^ e1 / (M * 2 ^ e2)
                  == (M * inject_Z q0 + inject_Z rem) * t)%Q).
    { rewrite <- HmQ.
      replace e1 with (s + e0 + e2) at 1 by (unfold s; lia).
      rewrite !Qpower_plus by discriminate.
      unfold t. field. split; lra. }
    assert (Hrem' : (0 <= inject_Z rem < M)%Q).
    { unfold M. rewrite <- (Zle_Qle 0), <- Zlt_Qlt. exact Hrem. }
    apply (located_eq ((M * inject_Z q0 + inject_Z rem) * t)%Q);
      [symmetry; exact Hr |].
    unfold bracket. rewrite inject_Z_plus. change (inject_Z 1) with 1%Q.
    set (Q0 := inject_Z q0). set (R := inject_Z rem) in *.
    set (u := (2 ^ e0)%Q) in *.
    assert (Hw : (0 <= R * t)%Q) by nra.
    unfold new_location, new_location_even, new_location_odd.
    assert (Hcases :
      (rem = 0 /\ located ((M * Q0 + R) * t) (Q0 * u) ((Q0 + 1) * u) loc_Exact)
      \/ (rem <> 0 /\ 2 * rem < Z.pos m2
          /\ located ((M * Q0 + R) * t) (Q0 * u) ((Q0 + 1) * u) (loc_Inexact Lt))
      \/ (rem <> 0 /\ 2 * rem = Z.pos m2
          /\ located ((M * Q0 + R) * t) (Q0 * u) ((Q0 + 1) * u) (loc_Inexact Eq))
      \/ (rem <> 0 /\ Z.pos m2 < 2 * rem
          /\ located ((M * Q0 + R) * t) (Q0 * u) ((Q0 + 1) * u) (loc_Inexact Gt))).
    { destruct (Z.eq_dec rem 0) as [E0 | N0].
      - left. split; [exact E0 |]. cbn [located].
        assert (R == 0)%Q by (unfold R; rewrite E0; reflexivity). nra.
      - right.
        assert (HR0 : (0 < R)%Q) by (unfold R; rewrite <- (Zlt_Qlt 0); lia).
        assert (Hw' : (0 < R * t)%Q) by nra.
        destruct (Z.lt_total (2 * rem) (Z.pos m2)) as [L | [E | G]].
        + left. split; [exact N0 |]. split; [exact L |]. cbn [located].
          assert ((2 * R < M)%Q).
          { unfold R, M. change 2%Q with (inject_Z 2).
            rewrite <- inject_Z_mult, <- Zlt_Qlt. exact L. }
          split; nra.
        + right. left. split; [exact N0 |]. split; [exact E |]. cbn [located].
          assert ((2 * R == M)%Q).
          { unfold R, M. change 2%Q with (inject_Z 2).
            rewrite <- inject_Z_mult, E. reflexivity. }
          nra.
        + right. right. split; [exact N0 |]. split; [exact G |]. cbn [located].
          assert ((M < 2 * R)%Q).
          { unfold R, M. change 2%Q with (inject_Z 2).
            rewrite <- inject_Z_mult, <- Zlt_Qlt. exact G. }
          split; nra. }
    destruct (Z.even (Z.pos m2)) eqn:Ev.
    + destruct Hcases as [[E0 H] | [(N0 & C & H) | [(N0 & C & H) | (N0 & C & H)]]].
      * rewrite E0. exact H.
      * apply Z.eqb_neq in N0. rewrite N0.
        apply Z.compare_lt_iff in C. rewrite C. exact H.
      * apply Z.eqb_neq in N0. rewrite N0.
        apply Z.compare_eq_iff in C. rewrite C. exact H.
      * apply Z.eqb_neq in N0. rewrite N0.
        apply Z.compare_gt_iff in C. rewrite C. exact H.
    + assert (Hodd : Z.odd (Z.pos m2) = true)
        by (rewrite <- Z.negb_even, Ev; reflexivity).
      apply Z.odd_spec in Hodd. destruct Hodd as [h Hh].
      destruct Hcases as [[E0 H] | [(N0 & C & H) | [(N0 & C & H) | (N0 & C & H)]]].
      * rewrite E0. exact H.
      * apply Z.eqb_neq in N0. rewrite N0.
        destruct (Z.compare_spec (2 * rem + 1) (Z.pos m2)); [exact H | exact H | lia].
      * lia.
      * apply Z.eqb_neq in N0. rewrite N0.
        assert (C' : Z.pos m2 < 2 * rem + 1) by lia.
        apply Z.compare_gt_iff in C'. rewrite C'. exact H.
  - (* the exponent *)
    pose proof (digits2_pos_bounds m1) as [L1 _].
    pose proof (digits2_pos_bounds m2) as [_ U2].
    fold d1 in L1. fold d2 in U2.
    assert (Hd1 : 1 <= d1) by (unfold d1; lia).
    assert (Hd2 : 1 <= d2) by (unfold d2; lia).
    destruct (Z_le_gt_dec e0 (emin prec emax)) as [Hle | Hgt].
    { unfold fexp. lia. }
    assert (He0 : e0 <= D - prec) by (unfold e0, fexp in *; lia).
    set (k := d1 - 1 + s - d2).
    assert (Hk : prec - 1 <= k) by (unfold k, s, D in *; lia).
    assert (Hk0 : 0 <= k) by (unfold prec in *; lia).
    assert (HP : 2 ^ k <= q0).
    { apply (quotient_large m' (Z.pos m2) q0 rem (2 ^ k) (2 ^ d2));
        try assumption; [| apply Z.pow_pos_nonneg; lia].
      rewrite <- Z.pow_add_r by lia. rewrite Hm'.
      replace (k + d2) with ((d1 - 1) + s) by (unfold k; lia).
      rewrite Z.pow_add_r by lia. nia. }
    apply digits_large in HP; [| exact Hk0].
    unfold fexp. lia.
Qed.

(** The quotient of two finite numbers is the rounding of the quotient of
    their values: it is the same for two pairs in the same ratio. *)
Lemma SFdiv_ratio (sx sy : bool) (m1 m2 m1' m2' : positive)
    (e1 e2 e1' e2' : Z) :
  (inject_Z (Z.pos m1) * 2 ^ e1 * (inject_Z (Z.pos m2') * 2 ^ e2')
   == inject_Z (Z.pos m1') * 2 ^ e1' * (inject_Z (Z.pos m2) * 2 ^ e2))%Q ->
  SFdiv prec emax (S754_finite sx m1 e1) (S754_finite sy m2 e2)
  = SFdiv prec emax (S754_finite sx m1' e1') (S754_finite sy m2' e2').
Proof.
  intros Hratio. cbn [SFdiv].
  destruct (SFdiv_core_binary prec emax (Z.pos m1) e1 (Z.pos m2) e2)
    as [[q e] l] eqn:E.
  destruct (SFdiv_core_binary prec emax (Z.pos m1') e1' (Z.pos m2') e2')
    as [[q' e'] l'] eqn:E'.
  apply SFdiv_core_binary_bracket in E, E'.
  destruct E as (Hq & Hb & He), E' as (Hq' & Hb' & He').
  apply (binary_round_aux_bracket
           (inject_Z (Z.pos m1) * 2 ^ e1 / (inject_Z (Z.pos m2) * 2 ^ e2))%Q);
    try assumption.
  refine (located_eq _ _ _ _ _ _ Hb').
  pose proof (pow2_pos e1). pose proof (pow2_pos e2).
  pose proof (pow2_pos e1'). pose proof (pow2_pos e2').
  assert (0 < inject_Z (Z.pos m2))%Q by (rewrite <- (Zlt_Qlt 0); lia).
  assert (0 < inject_Z (Z.pos m2'))%Q by (rewrite <- (Zlt_Qlt 0); lia).
  assert (Hpos : (0 < inject_Z (Z.pos m2) * 2 ^ e2
                      * (inject_Z (Z.pos m2') * 2 ^ e2'))%Q)
    by (repeat apply Qmult_lt_0_compat; assumption).
  apply (Qmult_inj_r _ _ (inject_Z (Z.pos m2) * 2 ^ e2
                          * (inject_Z (Z.pos m2') * 2 ^ e2'))%Q);
    [intros E0; rewrite E0 in Hpos; discriminate |].
  transitivity (inject_Z (Z.pos m1') * 2 ^ e1'
                * (inject_Z (Z.pos m2) * 2 ^ e2))%Q; [field; split; lra |].
  rewrite <- Hratio. field. split; lra.
Qed.

Lemma positive_finite (k : float) :
  is_finite k = true -> ltb zero k = true ->
  exists m e, k = S754_finite false m e.
Proof.
  destruct k as [s | s | | s m e]; try discriminate.
  intros _ H. destruct s; [discriminate H |]. eauto.
Qed.

Lemma inject_Z_pos (p : positive) : (0 < inject_Z (Z.pos p))%Q.
Proof. rewrite <- (Zlt_Qlt 0). lia. Qed.

Lemma magnitude_pos (m : positive) (e : Z) : (0 < inject_Z (Z.pos m) * 2 ^ e)%Q.
Proof. apply Qmult_lt_0_compat; [apply inject_Z_pos | apply pow2_pos]. Qed.

Lemma value_finite (s : bool) (m : positive) (e : Z) :
  (value (S754_finite s m e)
   == (if s then - 1 else 1) * (inject_Z (Z.pos m) * 2 ^ e))%Q.
Proof.
  destruct s; cbn [value cond_Zopp].
  - change (Z.neg m) with (- Z.pos m). rewrite inject_Z_opp. ring.
  - ring.
Qed.

(** A finite product of a positive number and a finite number is a zero or a
    finite number of the sign of the second factor. *)
Lemma scaled_finite (mk : positive) (ek : Z) (sx : bool) (mx : positive)
    (ex : Z) :
  is_finite (mul (S754_finite false mk ek) (S754_finite sx mx ex)) = true ->
  mul (S754_finite false mk ek) (S754_finite sx mx ex) = S754_zero sx
  \/ exists m' e',
       mul (S754_finite false mk ek) (S754_finite sx mx ex)
       = S754_finite sx m' e'.
Proof.
  intros Hf.
  pose proof (mul_sign (S754_finite false mk ek) (S754_finite sx mx ex)) as Hs.
  destruct (mul (S754_finite false mk ek) (S754_finite sx mx ex))
    as [s' | s' | | s' m' e']; try discriminate;
    cbn [sign_bit xorb] in Hs; rewrite (Hs eq_refl); eauto.
Qed.

Lemma div_nan_r (x : float) : div x nan = nan.
Proof. destruct x; reflexivity. Qed.

Lemma div_flag_nan_r (x : float) : div_flag x nan = None.
Proof. unfold div_flag. cbn [is_nan]. rewrite orb_true_r. reflexivity. Qed.

(** Scaling both operands of a division by the same positive number, when
    the products are in the ratio of the operands, changes neither the
    quotient nor the flag. *)
Lemma div_scaling (k b s : float) :
  is_finite k = true -> ltb zero k = true -> is_zero b = false ->
  keeps_ratio k b s = true ->
  div (mul k s) (mul k b) = div s b
  /\ div_flag (mul k s) (mul k b) = div_flag s b.
Proof.
  intros Hk Hpos Hb H.
  destruct (positive_finite k Hk Hpos) as (mk & ek & ->).
  unfold keeps_ratio in H.
  apply andb_prop in H. destruct H as [H F4].
  apply andb_prop in H. destruct H as [H F3].
  apply andb_prop in H. destruct H as [F1 F2].
  apply eqb_prop in F1, F3. apply Qeq_bool_eq in F4.
  apply negb_true_iff in F2.
  destruct b as [sb | sb | | sb mb eb]; try discriminate.
  - (* b infinite *)
    change (mul (S754_finite false mk ek) (S754_infinity sb))
      with (S754_infinity sb).
    destruct s as [ss | ss | | ss ms es]; try (split; reflexivity).
    destruct (scaled_finite mk ek ss ms es F3) as [-> | (m' & e' & ->)];
      split; reflexivity.
  - (* b is NaN *)
    change (mul (S754_finite false mk ek) S754_nan) with nan.
    change S754_nan with nan.
    rewrite !div_nan_r, !div_flag_nan_r. split; reflexivity.
  - (* b finite *)
    destruct (scaled_finite mk ek sb mb eb F1) as [E | (mb' & eb' & E)];
      rewrite E in F2, F4 |- *; [discriminate F2 |].
    destruct s as [ss | ss | | ss ms es]; try (split; reflexivity).
    pose proof (magnitude_pos ms es) as Ps.
    pose proof (magnitude_pos mb eb) as Pb.
    pose proof (magnitude_pos mb' eb') as Pb'.
    destruct (scaled_finite mk ek ss ms es F3) as [E' | (ms' & es' & E')];
      rewrite E' in F4 |- *.
    + exfalso. rewrite !value_finite in F4. cbn [value] in F4.
      assert (P : (0 < inject_Z (Z.pos ms) * 2 ^ es
                       * (inject_Z (Z.pos mb') * 2 ^ eb'))%Q)
        by (apply Qmult_lt_0_compat; assumption).
      destruct ss, sb; lra.
    + assert (Hd : div (S754_finite ss ms' es') (S754_finite sb mb' eb')
                   = div (S754_finite ss ms es) (S754_finite sb mb eb)).
      { apply SFdiv_ratio. rewrite !value_finite in F4.
        destruct ss, sb; lra. }
      split; [exact Hd |].
      unfold div_flag. cbn [is_nan is_zero is_inf is_finite orb andb].
      rewrite Hd. reflexivity.
Qed.

(** Products that are not rounded are in the ratio of their factors. *)
Lemma exact_products_keep_ratio (k b s : float) :
  is_finite k = true -> ltb zero k = true -> is_zero b = false ->
  exact_product k b = true -> exact_product k s = true ->
  keeps_ratio k b s = true.
Proof.
  intros Hk Hpos Hb Eb Es.
  destruct (positive_finite k Hk Hpos) as (mk & ek & ->).
  unfold exact_product in Eb, Es.
  apply andb_prop in Eb, Es. destruct Eb as [Fb Vb], Es as [Fs Vs].
  apply Qeq_bool_eq in Vb, Vs.
  unfold keeps_ratio. rewrite Fb, Fs. cbn [andb].
  apply andb_true_intro. split.
  - apply eqb_prop in Fb.
    destruct b as [sb | sb | | sb mb eb]; try discriminate; try reflexivity.
    destruct (scaled_finite mk ek sb mb eb Fb) as [E | (m' & e' & E)];
      rewrite E in Vb |- *; [| reflexivity].
    exfalso. rewrite !value_finite in Vb. cbn [value] in Vb.
    pose proof (magnitude_pos mk ek). pose proof (magnitude_pos mb eb).
    assert (P : (0 < inject_Z (Z.pos mk) * 2 ^ ek
                     * (inject_Z (Z.pos mb) * 2 ^ eb))%Q)
      by (apply Qmult_lt_0_compat; assumption).
    destruct sb; lra.
  - apply Qeq_eq_bool. rewrite Vs, Vb. ring.
Qed.

End Float64Division.

Import Float64Division.

(** ** The peak finder *)

Module ScipyFacts.

Import Scipy.
Local Open Scope nat_scope.

Lemma plateau_end_spec (fuel : nat) (x : Array) (i i_max : nat) :
  forall a, i_max <= a + fuel ->
  a <= plateau_end fuel x i a i_max
  /\ (a <= i_max -> plateau_end fuel x i a i_max <= i_max)
  /\ (forall j, a <= j < plateau_end fuel x i a i_max ->
                eqb (at_ x j) (at_ x i) = true)
  /\ (plateau_end fuel x i a i_max < i_max ->
      eqb (at_ x (plateau_end fuel x i a i_max)) (at_ x i) = false).
Proof.
  induction fuel as [| fuel IH]; intros a Hf; cbn [plateau_end].
  - split; [lia |]. split; [lia |]. split; intros; lia.
  - destruct (Nat.ltb_spec a i_max) as [Hlt | Hge]; cbn [andb].
    + destruct (eqb (at_ x a) (at_ x i)) eqn:Heq.
      * destruct (IH (S a) ltac:(lia)) as (H1 & H2 & H3 & H4).
        split; [lia |]. split; [intros _; apply H2; lia |].
        split; [| exact H4].
        intros j Hj. destruct (Nat.eq_dec j a) as [-> | Hne]; [exact Heq |].
        apply H3. lia.
      * split; [lia |]. split; [lia |]. split; [intros; lia |].
        intros _. exact Heq.
    + split; [lia |]. split; [lia |]. split; intros; lia.
Qed.

(** A plateau that opens at [l] ends where the scan from [l] stops. *)
Lemma plateau_peak_end (d : Array) (l r e : nat) :
  plateau_peak d l r ->
  S l <= e ->
  (forall j, S l <= j < e -> eqb (at_ d j) (at_ d l) = true) ->
  (e < length d - 1 -> eqb (at_ d e) (at_ d l) = false) ->
  e = r + 1.
Proof.
  intros (H1 & H2 & H3 & H4 & H5 & H6) He Heq Hstop.
  destruct (Nat.lt_trichotomy e (r + 1)) as [Hlt | [Heq' | Hgt]]; [| exact Heq' |].
  - rewrite H5 in Hstop by lia. discriminate Hstop. lia.
  - apply ltb_not_eqb in H6. rewrite Heq in H6 by lia. discriminate.
Qed.

Lemma local_maxima_loop_spec (d : Array) (fuel : nat) :
  forall i, 1 <= i -> length d - 1 <= i + fuel ->
  forall p, In p (local_maxima_loop fuel d i (length d - 1))
            <-> exists l r, i <= l /\ plateau_peak d l r /\ p = (l + r) / 2.
Proof.
  induction fuel as [| fuel IH]; intros i Hi Hf p.
  - cbn. split; [easy |]. intros (l & r & Hl & (H1 & H2 & H3 & _) & _). lia.
  - cbn [local_maxima_loop].
    destruct (Nat.ltb_spec i (length d - 1)) as [Hlt | Hge].
    2: { split; [easy |]. intros (l & r & Hl & (H1 & H2 & H3 & _) & _). lia. }
    destruct (ltb (at_ d (i - 1)) (at_ d i)) eqn:Hup.
    2: { rewrite IH by lia. split.
         - intros (l & r & Hl & Hp & ->). exists l, r.
           split; [lia | split; [exact Hp | reflexivity]].
         - intros (l & r & Hl & Hp & ->). exists l, r.
           split; [| split; [exact Hp | reflexivity]].
           destruct (Nat.eq_dec l i) as [-> | Hne]; [| lia].
           destruct Hp as (_ & _ & _ & H4 & _). rewrite H4 in Hup. discriminate. }
    destruct (plateau_end_spec (length d) d i (length d - 1) (S i) ltac:(lia))
      as (E1 & E2 & E3 & E4).
    set (e := plateau_end (length d) d i (S i) (length d - 1)) in *.
    destruct (ltb (at_ d e) (at_ d i)) eqn:Hdown.
    + cbn [In]. rewrite IH by lia. split.
      * intros [<- | (l & r & Hl & Hp & ->)].
        -- exists i, (e - 1). split; [lia |]. split; [| reflexivity].
           unfold plateau_peak.
           split; [lia |]. split; [lia |]. split; [lia |].
           split; [exact Hup |]. split.
           ++ intros j Hj. apply E3. lia.
           ++ replace (e - 1 + 1) with e by lia. exact Hdown.
        -- exists l, r. split; [lia | split; [exact Hp | reflexivity]].
      * intros (l & r & Hl & Hp & ->).
        destruct (Nat.eq_dec l i) as [-> | Hne].
        -- left. pose proof (plateau_peak_end d i r e Hp E1 E3 E4) as ->.
           replace (r + 1 - 1) with r by lia. reflexivity.
        -- right. exists l, r. split; [| split; [exact Hp | reflexivity]].
           destruct (Nat.le_gt_cases (S e) l) as [Hle | Hgt]; [exact Hle | exfalso].
           destruct Hp as (P1 & P2 & P3 & P4 & _).
           assert (Hi_ok : eqb (at_ d i) (at_ d i) = true)
             by (apply (ltb_refl_r _ _ Hup)).
           assert (Hprev : eqb (at_ d (l - 1)) (at_ d i) = true).
           { destruct (Nat.eq_dec (l - 1) i) as [-> | Hn]; [exact Hi_ok |].
             apply E3. lia. }
           destruct (Nat.eq_dec l e) as [-> | Hne'].
           ++ rewrite (ltb_eqb_not_ltb _ _ _ Hdown Hprev) in P4. discriminate.
           ++ rewrite (eqb_eqb_not_ltb _ _ (at_ d i) Hprev) in P4; [discriminate |].
              apply E3. lia.
    + rewrite IH by lia. split.
      * intros (l & r & Hl & Hp & ->). exists l, r.
        split; [lia | split; [exact Hp | reflexivity]].
      * intros (l & r & Hl & Hp & ->). exists l, r.
        split; [| split; [exact Hp | reflexivity]].
        destruct (Nat.eq_dec l i) as [-> | Hne]; [| lia].
        pose proof (plateau_peak_end d i r e Hp E1 E3 E4) as He.
        destruct Hp as (_ & _ & _ & _ & _ & P6).
        rewrite <- He in P6. rewrite P6 in Hdown. discriminate.
Qed.

Lemma find_peaks_spec (d : Array) (p : nat) :
  In p (find_peaks d) <-> exists l r, plateau_peak d l r /\ p = (l + r) / 2.
Proof.
  unfold find_peaks. rewrite local_maxima_loop_spec by lia.
  split.
  - intros (l & r & _ & H). exists l, r. exact H.
  - intros (l & r & H). exists l, r. split; [| exact H].
    destruct H as ((H1 & _) & _). exact H1.
Qed.

(** The peaks come out in increasing order of index. *)
Lemma plateau_end_ge (fuel : nat) (x : Array) (i i_max : nat) :
  forall a, a <= plateau_end fuel x i a i_max.
Proof.
  induction fuel as [| fuel IH]; intros a; cbn [plateau_end]; [lia |].
  destruct ((a <? i_max) && eqb (at_ x a) (at_ x i)); [| lia].
  specialize (IH (S a)). lia.
Qed.

Lemma local_maxima_loop_ge (d : Array) (i_max fuel : nat) :
  forall i p, In p (local_maxima_loop fuel d i i_max) -> i <= p.
Proof.
  induction fuel as [| fuel IH]; intros i p; cbn [local_maxima_loop]; [easy |].
  destruct (i <? i_max); [| easy].
  pose proof (plateau_end_ge (length d) d i i_max (S i)) as He.
  destruct (ltb (at_ d (i - 1)) (at_ d i)).
  - destruct (ltb (at_ d _) (at_ d i)).
    + intros [<- | H].
      * apply Nat.div_le_lower_bound; lia.
      * apply IH in H. lia.
    + intros H. apply IH in H. lia.
  - intros H. apply IH in H. lia.
Qed.

Lemma local_maxima_loop_NoDup (d : Array) (i_max fuel : nat) :
  forall i, NoDup (local_maxima_loop fuel d i i_max).
Proof.
  induction fuel as [| fuel IH]; intros i; cbn [local_maxima_loop];
    [constructor |].
  destruct (i <? i_max); [| constructor].
  pose proof (plateau_end_ge (length d) d i i_max (S i)) as He.
  destruct (ltb (at_ d (i - 1)) (at_ d i)); [| apply IH].
  destruct (ltb (at_ d _) (at_ d i)); [| apply IH].
  constructor; [| apply IH].
  intros H. apply local_maxima_loop_ge in H.
  assert ((i + (plateau_end (length d) d i (S i) i_max - 1)) / 2
          <= plateau_end (length d) d i (S i) i_max - 1)
    by (apply Nat.Div0.div_le_upper_bound; lia).
  lia.
Qed.

Lemma find_peaks_NoDup (d : Array) : NoDup (find_peaks d).
Proof. apply local_maxima_loop_NoDup. Qed.

(** The value at a peak is a number. *)
Lemma find_peaks_not_nan (d : Array) (p : nat) :
  In p (find_peaks d) -> eqb (at_ d p) (at_ d p) = true.
Proof.
  intros H. apply find_peaks_spec in H.
  destruct H as (l & r & (H1 & H2 & H3 & H4 & H5 & H6) & ->).
  assert (Hlo : l <= (l + r) / 2) by (apply Nat.div_le_lower_bound; lia).
  assert (Hhi : (l + r) / 2 <= r) by (apply Nat.Div0.div_le_upper_bound; lia).
  destruct (Nat.eq_dec ((l + r) / 2) l) as [-> | Hne].
  - exact (ltb_refl_r _ _ H4).
  - apply eqb_refl. apply (eqb_not_nan_l _ (at_ d l)). apply H5. lia.
Qed.

(** No peak on a curve that rises all the way or falls all the way. *)
Lemma no_plateau_increasing (d : Array) (l r : nat) :
  (forall j, j + 1 < length d -> ltb (at_ d j) (at_ d (j + 1)) = true) ->
  ~ plateau_peak d l r.
Proof.
  intros Hinc (H1 & H2 & H3 & H4 & H5 & H6).
  assert (Hr : eqb (at_ d r) (at_ d l) = true).
  { destruct (Nat.eq_dec r l) as [-> | Hne].
    - exact (ltb_refl_r _ _ H4).
    - apply H5. lia. }
  pose proof (ltb_eqb_not_ltb _ _ _ H6 Hr) as Hno.
  rewrite Hinc in Hno by lia. discriminate.
Qed.

Lemma no_plateau_decreasing (d : Array) (l r : nat) :
  (forall j, j + 1 < length d -> ltb (at_ d (j + 1)) (at_ d j) = true) ->
  ~ plateau_peak d l r.
Proof.
  intros Hdec (H1 & H2 & H3 & H4 & H5 & H6).
  apply ltb_asym in H4.
  specialize (Hdec (l - 1)). replace (l - 1 + 1) with l in Hdec by lia.
  rewrite Hdec in H4 by lia. discriminate.
Qed.

End ScipyFacts.

(** ** The stable descending sort *)

Section SortFacts.

Context {A : Type} (key : A -> float).


Lemma insert_desc_perm (x : A) (l : list A) :
  Permutation (insert_desc key x l) (x :: l).
Proof.
  induction l as [| y l IH]; cbn; [reflexivity |].
  destruct (ltb (key x) (key y)); [| reflexivity].
  rewrite IH. apply perm_swap.
Qed.

Lemma sorted_reverse_perm (l : list A) : Permutation (sorted_reverse key l) l.
Proof.
  induction l as [| x l IH]; cbn; [reflexivity |].
  rewrite insert_desc_perm. constructor. exact IH.
Qed.

Lemma insert_desc_sorted (x : A) (l : list A) :
  eqb (key x) (key x) = true ->
  Forall (fun a => eqb (key a) (key a) = true) l ->
  StronglySorted (before key) l ->
  StronglySorted (before key) (insert_desc key x l).
Proof.
  intros Hx Hl Hs. induction Hs as [| y l Hs IH Hy]; cbn.
  - constructor; constructor.
  - inversion Hl as [| ? ? Hyy Hl']; subst.
    destruct (ltb (key x) (key y)) eqn:Hlt.
    + constructor; [apply IH; exact Hl' |].
      apply (Permutation_Forall (x := x :: l)).
      * symmetry. apply insert_desc_perm.
      * constructor; [| exact Hy].
        unfold before. apply ltb_leb. exact Hlt.
    + assert (Hxy : before key x y)
        by (unfold before; apply not_ltb_leb; assumption).
      constructor; [constructor; assumption |].
      constructor; [exact Hxy |].
      apply (Forall_impl (P := before key y)); [| exact Hy].
      intros z Hz. unfold before in *.
      apply (leb_trans _ (key y)); assumption.
Qed.

Lemma sorted_reverse_sorted (l : list A) :
  Forall (fun a => eqb (key a) (key a) = true) l ->
  StronglySorted (before key) (sorted_reverse key l).
Proof.
  induction 1 as [| x l Hx Hl IH]; cbn; [constructor |].
  apply insert_desc_sorted; [exact Hx | | exact IH].
  apply (Permutation_Forall (x := l)); [| exact Hl].
  symmetry. apply sorted_reverse_perm.
Qed.

End SortFacts.


(** The ranking of lines 391-393: the peaks of the curve, each once, in
    descending order of the curve. *)
Lemma rankPeaks_spec (d : Array) :
  (forall i, In i (rankPeaks d)
             <-> exists l r, plateau_peak d l r /\ i = Z.of_nat ((l + r) / 2))
  /\ NoDup (rankPeaks d)
  /\ StronglySorted (descending d) (rankPeaks d).
Proof.
  unfold rankPeaks.
  set (key := fun i : Z => Scipy.at_ d (Z.to_nat i)).
  pose proof (sorted_reverse_perm key (map Z.of_nat (Scipy.find_peaks d))) as HP.
  split; [| split].
  - intros i. split.
    + intros H. apply (Permutation_in _ HP) in H.
      apply in_map_iff in H. destruct H as (p & <- & H).
      apply ScipyFacts.find_peaks_spec in H. destruct H as (l & r & H & ->).
      exists l, r. split; [exact H | reflexivity].
    + intros (l & r & H & ->).
      apply (Permutation_in _ (Permutation_sym HP)).
      apply in_map. apply ScipyFacts.find_peaks_spec. exists l, r.
      split; [exact H | reflexivity].
  - apply (Permutation_NoDup (Permutation_sym HP)).
    apply Injective_map_NoDup; [| apply ScipyFacts.find_peaks_NoDup].
    intros a b Hab. apply Nat2Z.inj. exact Hab.
  - apply sorted_reverse_sorted.
    apply Forall_forall. intros i H.
    apply in_map_iff in H. destruct H as (p & <- & H).
    unfold key. rewrite Nat2Z.id. apply ScipyFacts.find_peaks_not_nan. exact H.
Qed.

(** ** rCRTFromParameters *)

(** C1, as stated, fails: the decay rate [-5e-324] is nonzero and the standard
    deviation [0.0] is non-negative, but [-1/b] overflows, NumPy warns and the
    warning is raised: the function returns nothing. *)
Lemma rCRTFromParameters_overflow :
  is_zero (opp tiny) = false
  /\ leb zero zero = true
  /\ rCRTFromParameters ([one; opp tiny; zero], [zero; zero; zero])
     = Raise (RuntimeWarning Overflow).
Proof. vm_compute. repeat split. Qed.

(** C1 (amended): for every fit result whose decay rate [b] is nonzero and
    whose standard deviation [s] is non-negative, when no operation of the
    computation raises a floating-point warning, [rCRTFromParameters] returns
    [rCRT = -1/b] and the uncertainty [2*|rCRT|*(s/|b|)], as binary64
    numbers; for [b = -0.5] the rCRT is [2.0] and for [b = -1.0] it is [1.0]. *)
Theorem rCRTFromParameters_formula (params stddev : Array) (b s : float) :
  nth_error params 1 = Some b ->
  nth_error stddev 1 = Some s ->
  is_zero b = false ->
  leb zero s = true ->
  rCRT_quiet b s ->
  let rCRT := div (of_Z (-1)) b in
  rCRTFromParameters (params, stddev)
  = Ok (rCRT, mul (mul (of_Z 2) (abs rCRT)) (div s (abs b)))
  /\ (b = decimal (-5) 1 -> rCRT = of_Z 2)
  /\ (b = of_Z (-1) -> rCRT = of_Z 1).
Proof.
  intros Hb Hs _ _ (Q1 & Q2 & Q3 & Q4) rCRT.
  split; [| split; intros ->; reflexivity].
  unfold rCRTFromParameters, getitem, Np.divide, Np.multiply.
  rewrite Hb, Hs. cbn [bind].
  rewrite Q1. cbn [Np.checked bind].
  rewrite Q2. cbn [Np.checked bind].
  rewrite Q3. cbn [Np.checked bind].
  rewrite Q4. cbn [Np.checked bind].
  fold rCRT. f_equal. f_equal. apply uncertainty_forms.
Qed.

Lemma rCRTFromParameters_formula_witness :
  rCRTFromParameters ([one; decimal (-5) 1; zero], [zero; decimal 1 2; zero])
  = Ok (of_Z 2, decimal 8 2).
Proof.
  pose proof (rCRTFromParameters_formula
                [one; decimal (-5) 1; zero] [zero; decimal 1 2; zero]
                (decimal (-5) 1) (decimal 1 2)
                eq_refl eq_refl eq_refl eq_refl
                (conj eq_refl (conj eq_refl (conj eq_refl eq_refl)))) as H.
  cbv zeta in H. destruct H as [H _].
  etransitivity; [exact H |]. vm_compute. reflexivity.
Defined.

(** C6: when the decay rate is exactly zero, of either sign, the division
    [-1/b] raises NumPy's divide-by-zero warning, raised as an exception by
    line 17: a division condition, neither a fit failure ([RuntimeError]) nor
    an invalid argument ([TypeError]). *)
Theorem rCRTFromParameters_zero_rate (params stddev : Array) (b s : float) :
  nth_error params 1 = Some b ->
  nth_error stddev 1 = Some s ->
  is_zero b = true ->
  rCRTFromParameters (params, stddev) = Raise (RuntimeWarning DivideByZero)
  /\ is_RuntimeError (RuntimeWarning DivideByZero) = false
  /\ (forall msg, RuntimeWarning DivideByZero <> TypeError msg).
Proof.
  intros Hb Hs Hz.
  split; [| split; [reflexivity | discriminate]].
  unfold rCRTFromParameters, getitem. rewrite Hb, Hs. cbn [bind].
  destruct b as [sb | | |]; try discriminate.
  destruct sb; reflexivity.
Qed.

Lemma rCRTFromParameters_zero_rate_witness :
  rCRTFromParameters ([one; zero; zero], [zero; decimal 1 2; zero])
  = Raise (RuntimeWarning DivideByZero).
Proof.
  exact (proj1 (rCRTFromParameters_zero_rate
                  [one; zero; zero] [zero; decimal 1 2; zero] zero (decimal 1 2)
                  eq_refl eq_refl eq_refl)).
Defined.

(** ** calculateRelativeUncertainty *)

(** C8, as stated, fails twice.  With [b = -0.1], [s = 1.0] and
    [k = 3.0 > 0] the function gives [20.0], and on [(k*b, k*s)] it gives
    [19.999999999999996], because [3.0 * -0.1] is rounded.  And with the
    nonzero [b = 5e-324] and [s = 1.0] the quotient overflows, NumPy warns
    and the function returns nothing. *)
Lemma calculateRelativeUncertainty_scaling_rounds :
  (ltb zero (of_Z 3) = true
   /\ is_zero (decimal (-1) 1) = false
   /\ calculateRelativeUncertainty
        ([one; decimal (-1) 1; zero], [zero; one; zero])
      = Ok (of_Z 20)
   /\ calculateRelativeUncertainty
        ([one; mul (of_Z 3) (decimal (-1) 1); zero],
         [zero; mul (of_Z 3) one; zero])
      = Ok (S754_finite false 5629499534213119 (-48))
   /\ of_Z 20 <> S754_finite false 5629499534213119 (-48))
  /\ (is_zero tiny = false
      /\ calculateRelativeUncertainty ([one; tiny; zero], [zero; one; zero])
         = Raise (RuntimeWarning Overflow)).
Proof. vm_compute. repeat split. discriminate. Qed.

(** C8 (amended): for every fit result with decay-rate slot [(b, s)] and [b]
    nonzero, when the quotient [s/b] and its doubling raise no floating-point
    warning, [calculateRelativeUncertainty] returns the binary64 number
    [2*|s/b|]; and its outcome, value or exception, is the same on
    [(k*b, k*s)] for every finite [k > 0] whose computed products [k*b] and
    [k*s] are in the ratio of [b] and [s], which they are whenever neither
    product is rounded. *)
Theorem calculateRelativeUncertainty_scaling
    (params stddev : Array) (b s : float) :
  nth_error params 1 = Some b ->
  nth_error stddev 1 = Some s ->
  is_zero b = false ->
  (div_flag s b = None ->
   mul_flag (of_Z 2) (abs (div s b)) = None ->
   calculateRelativeUncertainty (params, stddev)
   = Ok (mul (of_Z 2) (abs (div s b))))
  /\ (forall (k : float) (params' stddev' : Array),
        nth_error params' 1 = Some (mul k b) ->
        nth_error stddev' 1 = Some (mul k s) ->
        is_finite k = true -> ltb zero k = true ->
        keeps_ratio k b s = true ->
        calculateRelativeUncertainty (params', stddev')
        = calculateRelativeUncertainty (params, stddev))
  /\ (forall k : float,
        is_finite k = true -> ltb zero k = true ->
        exact_product k b = true -> exact_product k s = true ->
        keeps_ratio k b s = true).
Proof.
  intros Hb Hs Hz. split; [| split].
  - intros Q1 Q2.
    unfold calculateRelativeUncertainty, getitem, Np.divide, Np.multiply.
    rewrite Hb, Hs. cbn [bind]. rewrite Q1. cbn [Np.checked bind].
    rewrite Q2. reflexivity.
  - intros k params' stddev' Hb' Hs' Hk Hpos Hr.
    unfold calculateRelativeUncertainty, getitem.
    rewrite Hb, Hs, Hb', Hs'. cbn [bind].
    destruct (div_scaling k b s Hk Hpos Hz Hr) as [Hd Hf].
    unfold Np.divide. rewrite Hd, Hf. reflexivity.
  - intros k Hk Hpos Eb Es.
    exact (exact_products_keep_ratio k b s Hk Hpos Hz Eb Es).
Qed.

Lemma calculateRelativeUncertainty_scaling_witness :
  calculateRelativeUncertainty
    ([one; decimal (-5) 1; zero], [zero; decimal 25 2; zero])
  = Ok one
  /\ calculateRelativeUncertainty
       ([one; mul (of_Z 3) (decimal (-5) 1); zero],
        [zero; mul (of_Z 3) (decimal 25 2); zero])
     = calculateRelativeUncertainty
         ([one; decimal (-5) 1; zero], [zero; decimal 25 2; zero])
  /\ keeps_ratio (of_Z 3) (decimal (-5) 1) (decimal 25 2) = true
  /\ calculateRelativeUncertainty
       ([one; mul (of_Z 3) (decimal (-1) 1); zero],
        [zero; mul (of_Z 3) zero; zero])
     = calculateRelativeUncertainty
         ([one; decimal (-1) 1; zero], [zero; zero; zero]).
Proof.
  destruct (calculateRelativeUncertainty_scaling
              [one; decimal (-5) 1; zero] [zero; decimal 25 2; zero]
              (decimal (-5) 1) (decimal 25 2) eq_refl eq_refl eq_refl)
    as (H1 & H2 & H3).
  destruct (calculateRelativeUncertainty_scaling
              [one; decimal (-1) 1; zero] [zero; zero; zero]
              (decimal (-1) 1) zero eq_refl eq_refl eq_refl)
    as (_ & H4 & _).
  assert (Hr : keeps_ratio (of_Z 3) (decimal (-5) 1) (decimal 25 2) = true)
    by (apply H3; vm_compute; reflexivity).
  split; [| split; [| split]].
  - etransitivity; [apply H1; reflexivity |]. vm_compute. reflexivity.
  - apply (H2 (of_Z 3));
      [reflexivity | reflexivity | reflexivity | reflexivity | exact Hr].
  - exact Hr.
  - apply (H4 (of_Z 3)); vm_compute; reflexivity.
Defined.

(** ** The fits and fitRCRT *)

Section FitProperties.

Variable curve_fit_run : ModelFn -> Array -> Array -> Array -> Bounds -> Outcome.
Variable exp : float -> float.
Variable repr_float : float -> string.

Local Abbreviation fitExponential := (fitExponential curve_fit_run repr_float).
Local Abbreviation fitPolynomial := (fitPolynomial curve_fit_run repr_float).
Local Abbreviation fitRCRT_int := (fitRCRT_int curve_fit_run repr_float).
Local Abbreviation fitRCRT_for := (fitRCRT_for curve_fit_run repr_float).
Local Abbreviation fitRCRT_list := (fitRCRT_list curve_fit_run repr_float).
Local Abbreviation fitRCRT := (fitRCRT curve_fit_run exp repr_float).
Local Abbreviation for_each := (@for_each MaxDiv (FitParametersTuple * Z)).
Local Abbreviation findMaxDivergencePeaks := (findMaxDivergencePeaks curve_fit_run exp repr_float).
Local Abbreviation str_p0 := (str_p0 repr_float).
Local Abbreviation candidate_fit := (candidate_fit curve_fit_run repr_float).
Local Abbreviation exp_failure_msg := (exp_failure_msg repr_float).
Local Abbreviation poly_failure_msg := (poly_failure_msg repr_float).

(** [fitExponential] calls the solver once, whatever the outcome, and its
    result does not depend on the calls made before. *)
Lemma fitExponential_run (x y : Array) (p0 : option Array) (log : list Call) :
  fitExponential x y p0 log
  = (fst (fitExponential x y p0 []),
     (log ++ [exp_call x y (p0_or_default p0)])%list).
Proof.
  unfold CurveFitting.fitExponential, try_except, bindF, curve_fit, lift, ret,
    raise, warn, exp_call.
  cbn [app].
  destruct (curve_fit_run f_exponential x y (p0_or_default p0) exp_bounds)
    as [popt pcov | w | e]; cbn.
  - destruct (covToStdDev pcov) as [sd | e]; cbn; [reflexivity |].
    destruct (is_RuntimeError_or_OptimizeWarning e); reflexivity.
  - destruct (is_RuntimeError_or_OptimizeWarning w); reflexivity.
  - destruct (is_RuntimeError_or_OptimizeWarning e); reflexivity.
Qed.

Lemma fitPolynomial_run (x y : Array) (p0 : option Array) (log : list Call) :
  fitPolynomial x y p0 log
  = (fst (fitPolynomial x y p0 []),
     (log ++ [poly_call x y (poly_p0_or_default p0)])%list).
Proof.
  unfold CurveFitting.fitPolynomial, try_except, bindF, curve_fit, lift, ret,
    raise, warn, poly_call.
  cbn [app].
  destruct (curve_fit_run f_polynomial x y (poly_p0_or_default p0) poly_bounds)
    as [popt pcov | w | e]; cbn.
  - destruct (covToStdDev pcov) as [sd | e]; cbn; [reflexivity |].
    destruct (is_RuntimeError_or_OptimizeWarning e); reflexivity.
  - destruct (is_RuntimeError_or_OptimizeWarning w); reflexivity.
  - destruct (is_RuntimeError_or_OptimizeWarning e); reflexivity.
Qed.


(** A fit failure on one index is a fit failure of the branch. *)
Lemma fitRCRT_int_failure (x y p0 : Array) (idx : Z) (log : list Call) :
  fit_failure (candidate_fit x y p0 idx) ->
  fit_failure (fst (fitRCRT_int x y p0 idx log))
  /\ snd (fitRCRT_int x y p0 idx log) = (log ++ [candidate_call x y p0 idx])%list.
Proof.
  intros (msg & cause & H).
  unfold CurveFitting.fitRCRT_int, try_except, bindF, ret, raise.
  rewrite fitExponential_run. fold (candidate_fit x y p0 idx). rewrite H.
  cbn. split; [| reflexivity]. eexists _, _. reflexivity.
Qed.

(** The loop goes past the candidates whose fit fails, in order. *)
Lemma fitRCRT_for_skips (x y p0 : Array) (failed rest : list Z)
    (otherwise : Fit (FitParametersTuple * Z)) (log : list Call) :
  Forall (fun idx => fit_failure (candidate_fit x y p0 idx)) failed ->
  fitRCRT_for x y p0 (failed ++ rest)%list otherwise log
  = fitRCRT_for x y p0 rest otherwise
      (log ++ map (candidate_call x y p0) failed)%list.
Proof.
  intros HF. revert log.
  induction HF as [| idx failed Hidx _ IH]; intros log.
  - cbn. rewrite app_nil_r. reflexivity.
  - cbn [app map CurveFitting.fitRCRT_for]. unfold try_except at 1.
    destruct (fitRCRT_int_failure x y p0 idx log Hidx) as [(m & c & Hr) Hl].
    destruct (fitRCRT_int x y p0 idx log) as [r l]. cbn in Hr, Hl. subst r l.
    cbn [is_RuntimeError]. rewrite IH. rewrite <- app_assoc. reflexivity.
Qed.


(** C4 (amended): a warning issued by the solver never leaves a fit result:
    it is raised where it is issued.  When it is an [OptimizeWarning], either
    fit raises the [RuntimeError] naming the initial guess that it raises
    when the solver does not converge, and the two differ in their cause
    alone; a warning of a class that the [except] clause does not name is
    raised as it is. *)
Theorem optimizer_warning_is_fit_failure (x y : Array) (p0 : option Array)
    (log : list Call) :
  (forall (o : Outcome) (err : exn),
     (o = Warns err /\ (exists w, err = OptimizeWarning w))
     \/ (o = Raises err /\ (exists m c, err = RuntimeError m c)) ->
     (curve_fit_run f_exponential x y (p0_or_default p0) exp_bounds = o ->
      fitExponential x y p0 log
      = (Raise (RuntimeError (exp_failure_msg p0) (Some err)),
         (log ++ [exp_call x y (p0_or_default p0)])%list))
     /\ (curve_fit_run f_polynomial x y (poly_p0_or_default p0)
           poly_bounds = o ->
         fitPolynomial x y p0 log
         = (Raise (RuntimeError (poly_failure_msg p0) (Some err)),
            (log ++ [poly_call x y (poly_p0_or_default p0)])%list)))
  /\ (forall w : exn,
        (curve_fit_run f_exponential x y (p0_or_default p0) exp_bounds
         = Warns w ->
         exists e,
           fitExponential x y p0 log
           = (Raise e, (log ++ [exp_call x y (p0_or_default p0)])%list)
           /\ (is_RuntimeError_or_OptimizeWarning w = false -> e = w))
        /\ (curve_fit_run f_polynomial x y (poly_p0_or_default p0)
              poly_bounds = Warns w ->
            exists e,
              fitPolynomial x y p0 log
              = (Raise e, (log ++ [poly_call x y (poly_p0_or_default p0)])%list)
              /\ (is_RuntimeError_or_OptimizeWarning w = false -> e = w))).
Proof.
  split.
  - intros o err Ho. split; intros Hrun.
    + unfold CurveFitting.fitExponential, try_except, bindF, curve_fit, warn, raise.
      rewrite Hrun.
      destruct Ho as [[-> (w & ->)] | [-> (m & c & ->)]]; reflexivity.
    + unfold CurveFitting.fitPolynomial, try_except, bindF, curve_fit, warn, raise.
      rewrite Hrun.
      destruct Ho as [[-> (w & ->)] | [-> (m & c & ->)]]; reflexivity.
  - intros w. split; intros Hrun.
    + unfold CurveFitting.fitExponential, try_except, bindF, curve_fit, warn, raise.
      rewrite Hrun.
      destruct (is_RuntimeError_or_OptimizeWarning w) eqn:E;
        eexists; (split; [reflexivity |]); [discriminate | reflexivity].
    + unfold CurveFitting.fitPolynomial, try_except, bindF, curve_fit, warn, raise.
      rewrite Hrun.
      destruct (is_RuntimeError_or_OptimizeWarning w) eqn:E;
        eexists; (split; [reflexivity |]); [discriminate | reflexivity].
Qed.

(** C5 (what the code does): when every candidate's fit fails, [fitRCRT]
    raises a [RuntimeError] whose message names the list of indices and ends
    in the text [with p0={p0}.] whatever the initial guess is; the initial
    guess is not in the message. *)
Theorem fitRCRT_all_candidates_fail (x y : Array) (p0 : option Array)
    (maxDivList : list Z) (log : list Call) :
  Forall (fun i => fit_failure (candidate_fit x y (p0_or_default p0) i))
    maxDivList ->
  fitRCRT x y p0 (MaxDivList maxDivList) log
  = (Raise (RuntimeError (all_failed_msg maxDivList) None),
     (log ++ map (candidate_call x y (p0_or_default p0)) maxDivList)%list).
Proof.
  intros HF.
  cbn [CurveFitting.fitRCRT]. unfold CurveFitting.fitRCRT_list.
  rewrite <- (app_nil_r maxDivList) at 1.
  rewrite fitRCRT_for_skips by exact HF.
  reflexivity.
Qed.

(** On ints the loop over items of any kind is the loop over ints. *)
Lemma for_each_ints (x y p0 : Array) (maxDivList : list Z)
    (otherwise : Fit (FitParametersTuple * Z)) (log : list Call) :
  for_each (fun item => fitRCRT x y (Some p0) item) (map MaxDivInt maxDivList)
    otherwise log
  = fitRCRT_for x y p0 maxDivList otherwise log.
Proof.
  revert log. induction maxDivList as [| idx l IH]; intros log; [reflexivity |].
  cbn [map for_each CurveFitting.fitRCRT_for]. unfold try_except.
  cbn [CurveFitting.fitRCRT p0_or_default].
  destruct (fitRCRT_int x y p0 idx log) as [[r | err] log']; [reflexivity |].
  destruct (is_RuntimeError err); [apply IH | reflexivity].
Qed.

Lemma str_list_ints (maxDivList : list Z) :
  str_list (repr_maxDiv repr_float) (map MaxDivInt maxDivList)
  = str_list str_int maxDivList.
Proof. unfold str_list. rewrite map_map. reflexivity. Qed.

(** A list of ints given item by item is the documented list of ints. *)
Lemma fitRCRT_mixed_of_ints (x y : Array) (p0 : option Array)
    (maxDivList : list Z) (log : list Call) :
  fitRCRT x y p0 (MaxDivMixed (map MaxDivInt maxDivList)) log
  = fitRCRT x y p0 (MaxDivList maxDivList) log.
Proof.
  cbn [CurveFitting.fitRCRT]. unfold CurveFitting.fitRCRT_list.
  rewrite str_list_ints. apply for_each_ints.
Qed.



(** The calls of the loop are exponential fits with the loop's [p0]. *)
Lemma fitRCRT_for_calls (x y p0 : Array) (P : Call -> Prop)
    (l : list Z) (e : exn) (log : list Call) :
  (forall idx, P (candidate_call x y p0 idx)) ->
  Forall P log ->
  Forall P (snd (fitRCRT_for x y p0 l (raise e) log)).
Proof.
  intros HP. revert log. induction l as [| idx l IH]; intros log Hlog.
  - exact Hlog.
  - cbn [CurveFitting.fitRCRT_for]. unfold try_except at 1.
    unfold CurveFitting.fitRCRT_int, try_except at 1, bindF, ret, raise.
    rewrite fitExponential_run.
    assert (Hlog' : Forall P (log ++ [candidate_call x y p0 idx])%list).
    { apply Forall_app. split; [exact Hlog | constructor; [apply HP | constructor]]. }
    destruct (fst _) as [r | err]; cbn.
    + exact Hlog'.
    + destruct (is_RuntimeError err) eqn:E; cbn; rewrite ?E; cbn.
      * apply IH. exact Hlog'.
      * exact Hlog'.
Qed.

(** C9: with [maxDiv] absent the caller's [p0] plays no part: the outcome and
    the calls of the solver are those of the call without [p0], and every
    exponential fit made uses the initial guess [[1.0, -0.3, 0.0]]. *)
Theorem fitRCRT_auto_discards_p0 (x y p0 : Array) (log : list Call) :
  fitRCRT x y (Some p0) MaxDivNone log = fitRCRT x y None MaxDivNone log
  /\ Forall (fun c => call_f c = f_exponential ->
                      call_p0 c = [one; decimal (-3) 1; zero])
       (snd (fitRCRT x y (Some p0) MaxDivNone [])).
Proof.
  split; [reflexivity |].
  cbn [CurveFitting.fitRCRT]. unfold CurveFitting.findMaxDivergencePeaks, bindF.
  rewrite fitExponential_run.
  destruct (fst (fitExponential x y None [])) as [expTuple | e]; cbn [app].
  2: { constructor; [reflexivity | constructor]. }
  rewrite fitPolynomial_run.
  assert (Hlog : Forall (fun c => call_f c = f_exponential ->
                           call_p0 c = [one; decimal (-3) 1; zero])
                   [exp_call x y (p0_or_default None);
                    poly_call x y (poly_p0_or_default None)]).
  { constructor; [reflexivity |]. constructor; [discriminate | constructor]. }
  destruct (fst (fitPolynomial x y None [])) as [polyTuple | e]; cbn [app].
  2: exact Hlog.
  unfold lift.
  destruct (findMaxDivergencePeaks_kw exp x expTuple polyTuple) as [peaks | e].
  2: exact Hlog.
  unfold CurveFitting.fitRCRT_list. apply fitRCRT_for_calls; [| exact Hlog].
  intros idx _. reflexivity.
Qed.

(** ** findMaxDivergencePeaks *)

(** C10: with the two tuples given, the result depends on [x] and on the two
    parameter vectors alone; the standard deviations play no part. *)
Theorem findMaxDivergencePeaks_ignores_stddev (x : Array)
    (expTuple expTuple' polyTuple polyTuple' : FitParametersTuple)
    (log : list Call) :
  fst expTuple = fst expTuple' ->
  fst polyTuple = fst polyTuple' ->
  findMaxDivergencePeaks x (Prefitted expTuple polyTuple) log
  = findMaxDivergencePeaks x (Prefitted expTuple' polyTuple') log.
Proof.
  intros He Hp.
  unfold CurveFitting.findMaxDivergencePeaks, lift, findMaxDivergencePeaks_kw.
  rewrite He, Hp. reflexivity.
Qed.

(** C3 (amended): with the two tuples given, when the difference curve [d]
    evaluates without error, [findMaxDivergencePeaks] returns, calling no
    solver, the list that holds exactly the middle index (rounded down) of
    every peak of [d], a peak being a run of equal samples away from both
    ends of [d] with a lower sample just before and just after it; so every
    sample higher than both its neighbours is in the list.  No index comes
    twice, the indices are in descending order of the value of [d], and the
    list is empty when [d] has no peak, as when it rises or falls all the
    way. *)
Theorem findMaxDivergencePeaks_prefitted (x : Array)
    (expTuple polyTuple : FitParametersTuple) (d : Array) (log : list Call) :
  diffExpPoly exp x (fst expTuple) (fst polyTuple) = Ok d ->
  exists peaks,
    findMaxDivergencePeaks x (Prefitted expTuple polyTuple) log = (Ok peaks, log)
    /\ (forall i, In i peaks
                  <-> exists l r, plateau_peak d l r
                                  /\ i = Z.of_nat ((l + r) / 2))
    /\ (forall i, (1 <= i)%nat -> (i + 1 < length d)%nat ->
                  ltb (Scipy.at_ d (i - 1)) (Scipy.at_ d i) = true ->
                  ltb (Scipy.at_ d (i + 1)) (Scipy.at_ d i) = true ->
                  In (Z.of_nat i) peaks)
    /\ NoDup peaks
    /\ StronglySorted (descending d) peaks
    /\ ((forall l r, ~ plateau_peak d l r) -> peaks = [])
    /\ ((forall j, (j + 1 < length d)%nat ->
                   ltb (Scipy.at_ d j) (Scipy.at_ d (j + 1)) = true) ->
        peaks = [])
    /\ ((forall j, (j + 1 < length d)%nat ->
                   ltb (Scipy.at_ d (j + 1)) (Scipy.at_ d j) = true) ->
        peaks = []).
Proof.
  intros Hd. exists (rankPeaks d).
  destruct (rankPeaks_spec d) as (Hin & Hnd & Hs).
  assert (Hnone : (forall l r, ~ plateau_peak d l r) -> rankPeaks d = []).
  { intros Hno. destruct (rankPeaks d) as [| i rest]; [reflexivity | exfalso].
    destruct (proj1 (Hin i) (or_introl eq_refl)) as (l & r & H & _).
    exact (Hno l r H). }
  split; [| split; [exact Hin | split; [| split; [exact Hnd | split;
    [exact Hs | split; [exact Hnone | split]]]]]].
  - unfold CurveFitting.findMaxDivergencePeaks, lift, findMaxDivergencePeaks_kw.
    cbn [fst snd]. rewrite Hd. reflexivity.
  - intros i H1 H2 H3 H4. apply Hin. exists i, i. split.
    + unfold plateau_peak. repeat split; try lia; try assumption.
    + f_equal. replace (i + i)%nat with (i * 2)%nat by lia.
      symmetry. apply Nat.div_mul. lia.
  - intros Hinc. apply Hnone. intros l r.
    apply ScipyFacts.no_plateau_increasing. exact Hinc.
  - intros Hdec. apply Hnone. intros l r.
    apply ScipyFacts.no_plateau_decreasing. exact Hdec.
Qed.

End FitProperties.

(** ** The statements at concrete inputs *)


Lemma optimizer_warning_is_fit_failure_witness :
  fitExponential solver_warning repr_few fifteen fifteen None []
  = (Raise (RuntimeError
              "Exponential fit failed with p0=[1.0, -0.3, 0.0]."
              (Some (OptimizeWarning
                       "Covariance of the parameters could not be estimated"))),
     [exp_call fifteen fifteen (p0_or_default None)])
  /\ fitPolynomial solver_warning repr_few fifteen fifteen None []
     = (Raise (RuntimeError
                 "Polynomial fit failed with p0=[0.0, 0.0, 0.0, 0.0, 0.0, 0.0, 0.0]."
                 (Some (OptimizeWarning
                          "Covariance of the parameters could not be estimated"))),
        [poly_call fifteen fifteen (poly_p0_or_default None)])
  /\ exists e,
       fitExponential solver_overflows repr_few fifteen fifteen None []
       = (Raise e, [exp_call fifteen fifteen (p0_or_default None)])
       /\ (is_RuntimeError_or_OptimizeWarning (RuntimeWarning Overflow) = false ->
           e = RuntimeWarning Overflow).
Proof.
  destruct (optimizer_warning_is_fit_failure solver_warning repr_few
              fifteen fifteen None []) as [Hopt _].
  destruct (Hopt (Warns (OptimizeWarning
                           "Covariance of the parameters could not be estimated"))
              (OptimizeWarning
                 "Covariance of the parameters could not be estimated")
              (or_introl (conj eq_refl (ex_intro _ _ eq_refl))))
    as [He Hp].
  destruct (optimizer_warning_is_fit_failure solver_overflows repr_few
              fifteen fifteen None []) as [_ Hany].
  destruct (Hany (RuntimeWarning Overflow)) as [Hw _].
  split; [apply He; reflexivity |].
  split; [apply Hp; reflexivity |].
  apply Hw. reflexivity.
Defined.

(** C4, as stated, fails for a warning that is not an [OptimizeWarning]: when
    the model overflows during the fit, NumPy's [RuntimeWarning] is raised by
    line 17 and passes the [except] clause of either fit: it is not the
    [RuntimeError] of a fit that does not converge. *)
Lemma runtime_warning_is_not_fit_failure :
  fitExponential solver_overflows repr_few fifteen fifteen None []
  = (Raise (RuntimeWarning Overflow),
     [exp_call fifteen fifteen (p0_or_default None)])
  /\ fitPolynomial solver_overflows repr_few fifteen fifteen None []
     = (Raise (RuntimeWarning Overflow),
        [poly_call fifteen fifteen (poly_p0_or_default None)])
  /\ is_RuntimeError (RuntimeWarning Overflow) = false
  /\ fst (fitExponential solver_on_ten repr_few fifteen fifteen None [])
     = Raise (RuntimeError
                "Exponential fit failed with p0=[1.0, -0.3, 0.0]."
                (Some (RuntimeError "Optimal parameters not found" None))).
Proof. vm_compute. repeat split. Qed.


Lemma fitRCRT_all_candidates_fail_witness :
  fst (fitRCRT solver_on_ten exp_at_zero repr_few fifteen fifteen
         (Some [decimal 25 1; of_Z (-1); zero]) (MaxDivList [5; 7; 15]) [])
  = Raise (RuntimeError
             "rCRT fit failed on all maxDivIndexes ([5, 7, 15]), with p0={p0}."
             None).
Proof.
  rewrite (fitRCRT_all_candidates_fail solver_on_ten exp_at_zero repr_few
             fifteen fifteen (Some [decimal 25 1; of_Z (-1); zero])
             [5; 7; 15] []).
  - reflexivity.
  - repeat constructor; eexists _, _; vm_compute; reflexivity.
Defined.



Lemma findMaxDivergencePeaks_ignores_stddev_witness :
  findMaxDivergencePeaks solver_on_ten exp_at_zero repr_few hill_x
    (Prefitted flat_exp hill_poly) []
  = findMaxDivergencePeaks solver_on_ten exp_at_zero repr_few hill_x
      (Prefitted ([zero; zero; zero], [one; one; one])
                 ([zero; of_Z 4; of_Z (-1)], [of_Z 2; of_Z 3; of_Z 4])) [].
Proof.
  exact (findMaxDivergencePeaks_ignores_stddev solver_on_ten exp_at_zero
           repr_few hill_x flat_exp ([zero; zero; zero], [one; one; one])
           hill_poly ([zero; of_Z 4; of_Z (-1)], [of_Z 2; of_Z 3; of_Z 4])
           [] eq_refl eq_refl).
Defined.

Lemma findMaxDivergencePeaks_prefitted_witness :
  diffExpPoly exp_at_zero hill_x (fst flat_exp) (fst hill_poly)
  = Ok (map of_Z [0; 3; 4; 3; 0])
  /\ exists peaks,
       findMaxDivergencePeaks solver_on_ten exp_at_zero repr_few hill_x
         (Prefitted flat_exp hill_poly) []
       = (Ok peaks, [])
       /\ (In 2 peaks)
       /\ NoDup peaks
       /\ StronglySorted (descending (map of_Z [0; 3; 4; 3; 0])) peaks.
Proof.
  assert (Hd : diffExpPoly exp_at_zero hill_x (fst flat_exp) (fst hill_poly)
               = Ok (map of_Z [0; 3; 4; 3; 0])) by (vm_compute; reflexivity).
  split; [exact Hd |].
  destruct (findMaxDivergencePeaks_prefitted solver_on_ten exp_at_zero repr_few
              hill_x flat_exp hill_poly _ [] Hd)
    as (peaks & Hrun & _ & Hstrict & Hnd & Hs & _).
  exists peaks. split; [exact Hrun |]. split; [| split; [exact Hnd | exact Hs]].
  apply (Hstrict 2%nat); try reflexivity; cbn; lia.
Defined.

(** C3, as stated, fails twice.  On [x = [0, 0.5, 1.5, 2]] with the
    exponential [0*exp(0*x) + 0] and the polynomial [2x - x^2] the difference
    curve is [[0, 0.75, 0.75, 0]]; the result is [[1]], and the sample at
    index 1 is not higher than the sample at index 2: the curve has no
    sample higher than both its neighbours, and the result is not empty.
    And on [x = [2.0]] with the polynomial [1.7976931348623157e308 * x] the
    evaluation overflows, NumPy warns and the function returns nothing. *)
Lemma findMaxDivergencePeaks_flat_peak :
  (diffExpPoly exp_at_zero flat_x (fst flat_exp) (fst flat_poly)
   = Ok [zero; decimal 75 2; decimal 75 2; zero]
   /\ findMaxDivergencePeaks solver_on_ten exp_at_zero repr_few flat_x
        (Prefitted flat_exp flat_poly) []
      = (Ok [1], [])
   /\ ltb (Scipy.at_ [zero; decimal 75 2; decimal 75 2; zero] 2)
          (Scipy.at_ [zero; decimal 75 2; decimal 75 2; zero] 1) = false)
  /\ findMaxDivergencePeaks solver_on_ten exp_at_zero repr_few [of_Z 2]
       (Prefitted flat_exp ([zero; huge], [zero; zero])) []
     = (Raise (RuntimeWarning Overflow), []).
Proof. vm_compute. repeat split. Qed.

(** * Further properties of the module *)

(** ** Array operations *)

Module UfuncFacts.

Lemma unary_ok (flag : float -> option fpe) (op : float -> float) (a r : Array) :
  Ufunc.unary flag op a = Ok r -> r = map op a.
Proof.
  unfold Ufunc.unary. destruct (Ufunc.raised _); [discriminate |].
  intros H. inversion H. reflexivity.
Qed.

Lemma unary_length (flag : float -> option fpe) (op : float -> float) (a r : Array) :
  Ufunc.unary flag op a = Ok r -> length r = length a.
Proof. intros H. apply unary_ok in H. subst. apply length_map. Qed.

Lemma binary_length (flag : float -> float -> option fpe)
    (op : float -> float -> float) (a b r : Array) :
  Ufunc.binary flag op a b = Ok r -> length r = length a /\ length a = length b.
Proof.
  unfold Ufunc.binary. destruct (Nat.eqb_spec (length a) (length b)) as [E | E];
    [| discriminate].
  destruct (Ufunc.raised _); [discriminate |].
  intros H. inversion H. rewrite length_map, length_combine. lia.
Qed.

Lemma raised_none (flags : list (option fpe)) :
  Ufunc.raised flags = None -> Forall (fun f => f = None) flags.
Proof.
  unfold Ufunc.raised.
  destruct (Ufunc.has DivideByZero flags) eqn:H1; [discriminate |].
  destruct (Ufunc.has Overflow flags) eqn:H2; [discriminate |].
  destruct (Ufunc.has Invalid flags) eqn:H3; [discriminate |].
  intros _. unfold Ufunc.has in *.
  induction flags as [| f flags IH]; [constructor |].
  cbn in H1, H2, H3.
  apply orb_false_iff in H1, H2, H3.
  destruct H1 as [A1 B1], H2 as [A2 B2], H3 as [A3 B3].
  constructor; [| apply IH; assumption].
  destruct f as [[] |]; try discriminate; reflexivity.
Qed.

Lemma has_sqrt (k : fpe) (a : Array) :
  Ufunc.has k (map sqrt_flag a)
  = match k with
    | Invalid => existsb (fun v => ltb v zero) a
    | _ => false
    end.
Proof.
  unfold Ufunc.has. induction a as [| v a IH]; cbn [map existsb].
  - destruct k; reflexivity.
  - rewrite IH, sqrt_flag_spec. destruct (ltb v zero), k; reflexivity.
Qed.

Lemma raised_sqrt (a : Array) :
  Ufunc.raised (map sqrt_flag a)
  = if existsb (fun v => ltb v zero) a then Some Invalid else None.
Proof. unfold Ufunc.raised. rewrite !has_sqrt. reflexivity. Qed.

End UfuncFacts.

Import UfuncFacts.

(** ** The rCRT and its relative uncertainty *)

(** X1: [rCRTFromParameters] and [calculateRelativeUncertainty] read the
    second slot of each array and nothing else: two fit results that agree
    there give the same outcome, whatever [a], [c] and their deviations. *)
Theorem decay_rate_slot_only (params stddev params' stddev' : Array) :
  nth_error params 1 = nth_error params' 1 ->
  nth_error stddev 1 = nth_error stddev' 1 ->
  rCRTFromParameters (params, stddev) = rCRTFromParameters (params', stddev')
  /\ calculateRelativeUncertainty (params, stddev)
     = calculateRelativeUncertainty (params', stddev').
Proof.
  intros Hp Hs. unfold rCRTFromParameters, calculateRelativeUncertainty, getitem.
  rewrite Hp, Hs. split; reflexivity.
Qed.

Lemma decay_rate_slot_only_witness :
  rCRTFromParameters ([one; decimal (-5) 1; zero], [zero; decimal 1 2; zero])
  = rCRTFromParameters ([of_Z 7; decimal (-5) 1], [huge; decimal 1 2; nan; one])
  /\ calculateRelativeUncertainty
       ([one; decimal (-5) 1; zero], [zero; decimal 1 2; zero])
     = calculateRelativeUncertainty
         ([of_Z 7; decimal (-5) 1], [huge; decimal 1 2; nan; one]).
Proof.
  exact (decay_rate_slot_only
           [one; decimal (-5) 1; zero] [zero; decimal 1 2; zero]
           [of_Z 7; decimal (-5) 1] [huge; decimal 1 2; nan; one]
           eq_refl eq_refl).
Defined.

(** X2: for a decaying exponential ([b < 0]) and a non-negative standard
    deviation, when no operation raises a floating-point warning,
    [rCRTFromParameters] returns an rCRT and an uncertainty that are both
    non-negative numbers (not NaN). *)
Theorem rCRTFromParameters_decay_not_negative
    (params stddev : Array) (b s : float) :
  nth_error params 1 = Some b -> nth_error stddev 1 = Some s ->
  ltb b zero = true ->
  leb zero s = true ->
  rCRT_quiet b s ->
  exists rCRT rCRTUncertainty,
    rCRTFromParameters (params, stddev) = Ok (rCRT, rCRTUncertainty)
    /\ leb zero rCRT = true
    /\ leb zero rCRTUncertainty = true.
Proof.
  intros Hb Hs Hneg Hpos (Q1 & Q2 & Q3 & Q4).
  exists (div (of_Z (-1)) b), (mul (mul (of_Z (-2)) (div (of_Z (-1)) b)) (div s b)).
  split.
  { unfold rCRTFromParameters, getitem, Np.divide, Np.multiply.
    rewrite Hb, Hs. cbn [bind]. rewrite Q1. cbn [Np.checked bind].
    rewrite Q2. cbn [Np.checked bind]. rewrite Q3. cbn [Np.checked bind].
    rewrite Q4. reflexivity. }
  set (r := div (of_Z (-1)) b) in *.
  assert (Hbn : is_nan b = false) by (destruct b; try reflexivity; discriminate).
  assert (Hbs : sign_bit b = true).
  { destruct b as [sb | sb | | sb mb eb]; try discriminate; destruct sb;
      try reflexivity; discriminate. }
  destruct (leb_zero_cases s Hpos) as [Hsn Hss].
  assert (Hrn : is_nan r = false)
    by (apply div_not_nan; [reflexivity | exact Hbn | rewrite Q1; discriminate]).
  assert (Hrs : sign_bit r = false)
    by (unfold r; rewrite (div_sign _ _ Hrn), Hbs; reflexivity).
  split; [apply positive_sign_leb; assumption |].
  set (m2r := mul (of_Z (-2)) r) in *.
  assert (Hmn : is_nan m2r = false)
    by (apply mul_not_nan; [reflexivity | exact Hrn | rewrite Q2; discriminate]).
  set (q := div s b) in *.
  assert (Hqn : is_nan q = false)
    by (apply div_not_nan; [exact Hsn | exact Hbn | rewrite Q3; discriminate]).
  assert (Hun : is_nan (mul m2r q) = false)
    by (apply mul_not_nan; [exact Hmn | exact Hqn | rewrite Q4; discriminate]).
  destruct Hss as [Hss | Hsz].
  - apply positive_sign_leb; [exact Hun |].
    rewrite (mul_sign _ _ Hun). unfold m2r, q.
    rewrite (mul_sign _ _ Hmn), (div_sign _ _ Hqn), Hrs, Hbs, Hss. reflexivity.
  - assert (Hqz : is_zero q = true).
    { unfold q. destruct s as [ss | | |]; try discriminate.
      destruct b as [sb | sb | | sb mb eb]; try discriminate; reflexivity. }
    destruct q as [sq | | |]; try discriminate.
    destruct (mul m2r (S754_zero sq)) eqn:Hu; try reflexivity.
    + destruct m2r; discriminate.
    + discriminate.
    + destruct m2r; discriminate.
Qed.

Lemma rCRTFromParameters_decay_not_negative_witness :
  exists rCRT rCRTUncertainty,
    rCRTFromParameters ([one; decimal (-3) 1; zero], [zero; decimal 1 2; zero])
    = Ok (rCRT, rCRTUncertainty)
    /\ leb zero rCRT = true
    /\ leb zero rCRTUncertainty = true.
Proof.
  apply (rCRTFromParameters_decay_not_negative
           [one; decimal (-3) 1; zero] [zero; decimal 1 2; zero]
           (decimal (-3) 1) (decimal 1 2) eq_refl eq_refl eq_refl eq_refl).
  repeat split.
Defined.

(** X3: whatever [calculateRelativeUncertainty] returns is not negative. *)
Theorem calculateRelativeUncertainty_not_negative
    (rCRTTuple : FitParametersTuple) (v : float) :
  calculateRelativeUncertainty rCRTTuple = Ok v -> ltb v zero = false.
Proof.
  destruct rCRTTuple as [params stddev].
  unfold calculateRelativeUncertainty, getitem.
  destruct (nth_error stddev 1) as [s |]; [| discriminate].
  destruct (nth_error params 1) as [b |]; [| discriminate].
  cbn [bind]. unfold Np.divide, Np.multiply.
  destruct (div_flag s b); [discriminate |]. cbn [Np.checked bind].
  destruct (mul_flag _ _); [discriminate |]. cbn [Np.checked].
  set (w := mul (of_Z 2) (abs (div s b))).
  assert (Hw : ltb w zero = false).
  { destruct (is_nan w) eqn:Hn.
    - apply is_nan_eq in Hn. rewrite Hn. reflexivity.
    - apply positive_sign_not_ltb. unfold w. rewrite (mul_sign _ _ Hn).
      destruct (div s b); reflexivity. }
  intros H. inversion H; subst. exact Hw.
Qed.

Lemma calculateRelativeUncertainty_not_negative_witness :
  calculateRelativeUncertainty ([one; decimal (-1) 1; zero], [zero; one; zero])
  = Ok (of_Z 20)
  /\ ltb (of_Z 20) zero = false.
Proof.
  assert (H : calculateRelativeUncertainty
                ([one; decimal (-1) 1; zero], [zero; one; zero])
              = Ok (of_Z 20)) by (vm_compute; reflexivity).
  split; [exact H |].
  exact (calculateRelativeUncertainty_not_negative _ _ H).
Defined.

(** X4: the outcome of [calculateRelativeUncertainty] does not depend on the
    sign of the decay rate or of the standard deviation. *)
Theorem calculateRelativeUncertainty_sign_free
    (params stddev params' stddev' : Array) (b s b' s' : float) :
  nth_error params 1 = Some b -> nth_error stddev 1 = Some s ->
  nth_error params' 1 = Some b' -> nth_error stddev' 1 = Some s' ->
  b' = b \/ b' = opp b ->
  s' = s \/ s' = opp s ->
  calculateRelativeUncertainty (params', stddev')
  = calculateRelativeUncertainty (params, stddev).
Proof.
  intros Hb Hs Hb' Hs' Eb Es.
  unfold calculateRelativeUncertainty, getitem.
  rewrite Hb, Hs, Hb', Hs'. cbn [bind]. unfold Np.divide.
  assert (Hf : div_flag s' b' = div_flag s b).
  { destruct Eb as [-> | ->], Es as [-> | ->];
      rewrite ?div_flag_opp_l, ?div_flag_opp_r; reflexivity. }
  assert (Ha : abs (div s' b') = abs (div s b)).
  { destruct Eb as [-> | ->], Es as [-> | ->];
      rewrite ?div_opp_l, ?div_opp_r, ?abs_opp; reflexivity. }
  rewrite Hf. destruct (div_flag s b); [reflexivity |].
  cbn [Np.checked bind]. rewrite Ha. reflexivity.
Qed.

Lemma calculateRelativeUncertainty_sign_free_witness :
  calculateRelativeUncertainty
    ([one; decimal 3 1; zero], [zero; decimal (-1) 2; zero])
  = calculateRelativeUncertainty
      ([one; decimal (-3) 1; zero], [zero; decimal 1 2; zero]).
Proof.
  apply (calculateRelativeUncertainty_sign_free
           [one; decimal (-3) 1; zero] [zero; decimal 1 2; zero]
           [one; decimal 3 1; zero] [zero; decimal (-1) 2; zero]
           (decimal (-3) 1) (decimal 1 2) (decimal 3 1) (decimal (-1) 2)
           eq_refl eq_refl eq_refl eq_refl).
  - right. vm_compute. reflexivity.
  - right. vm_compute. reflexivity.
Defined.

(** X5: with a decay rate that is exactly zero and a finite standard
    deviation, [calculateRelativeUncertainty] returns nothing: the division
    raises NumPy's invalid-value warning when the deviation is zero too
    ([0/0]) and its divide-by-zero warning otherwise. *)
Theorem calculateRelativeUncertainty_zero_rate
    (params stddev : Array) (b s : float) :
  nth_error params 1 = Some b -> nth_error stddev 1 = Some s ->
  is_zero b = true ->
  is_finite s = true ->
  calculateRelativeUncertainty (params, stddev)
  = Raise (RuntimeWarning (if is_zero s then Invalid else DivideByZero)).
Proof.
  intros Hb Hs Hz Hf. unfold calculateRelativeUncertainty, getitem.
  rewrite Hb, Hs. cbn [bind].
  destruct b as [sb | | |]; try discriminate.
  destruct s as [ss | | | ss ms es]; try discriminate; reflexivity.
Qed.

Lemma calculateRelativeUncertainty_zero_rate_witness :
  calculateRelativeUncertainty ([one; zero; zero], [zero; zero; zero])
  = Raise (RuntimeWarning Invalid)
  /\ calculateRelativeUncertainty ([one; zero; zero], [zero; one; zero])
     = Raise (RuntimeWarning DivideByZero).
Proof.
  split.
  - exact (calculateRelativeUncertainty_zero_rate
             [one; zero; zero] [zero; zero; zero] zero zero
             eq_refl eq_refl eq_refl eq_refl).
  - exact (calculateRelativeUncertainty_zero_rate
             [one; zero; zero] [zero; one; zero] zero one
             eq_refl eq_refl eq_refl eq_refl).
Defined.

(** ** covToStdDev *)

Lemma covToStdDev_spec (cov : list Array) :
  covToStdDev cov
  = if existsb (fun v => ltb v zero) (np_diag cov)
    then Raise (RuntimeWarning Invalid)
    else Ok (map sqrt (np_diag cov)).
Proof.
  unfold covToStdDev, Ufunc.sqrt, Ufunc.unary. rewrite raised_sqrt.
  destruct (existsb _ _); reflexivity.
Qed.

Lemma existsb_false_Forall {A} (f : A -> bool) (l : list A) :
  existsb f l = false <-> Forall (fun a => f a = false) l.
Proof.
  induction l as [| a l IH]; cbn.
  - split; [constructor | reflexivity].
  - rewrite orb_false_iff, IH. split.
    + intros [H1 H2]. constructor; assumption.
    + intros H. inversion H; subst. split; assumption.
Qed.

Lemma existsb_true_Exists {A} (f : A -> bool) (l : list A) :
  existsb f l = true <-> Exists (fun a => f a = true) l.
Proof.
  rewrite existsb_exists, Exists_exists. reflexivity.
Qed.

(** np.diag of a square matrix *)
Lemma diag_from_nth (rows : list Array) :
  forall k i,
  Forall (fun r => (k + length rows <= length r)%nat) rows ->
  (i < length rows)%nat ->
  nth_error (diag_from k rows) i
  = match nth_error rows i with
    | Some r => nth_error r (k + i)
    | None => None
    end.
Proof.
  induction rows as [| r rows IH]; intros k i HF Hi; [cbn in Hi; lia |].
  inversion HF as [| ? ? Hr HF']; subst. cbn [length] in *.
  cbn [diag_from].
  destruct (nth_error r k) as [v |] eqn:Hk.
  2: { apply nth_error_None in Hk. lia. }
  destruct i as [| i]; cbn [nth_error].
  - rewrite Nat.add_0_r. symmetry. exact Hk.
  - rewrite (IH (S k) i).
    + replace (S k + i)%nat with (k + S i)%nat by lia. reflexivity.
    + apply (Forall_impl (P := fun r => (k + S (length rows) <= length r)%nat));
        [| exact HF']. intros a Ha. lia.
    + lia.
Qed.

Lemma diag_from_length (rows : list Array) :
  forall k, Forall (fun r => (k + length rows <= length r)%nat) rows ->
  length (diag_from k rows) = length rows.
Proof.
  induction rows as [| r rows IH]; intros k HF; [reflexivity |].
  inversion HF as [| ? ? Hr HF']; subst. cbn [length] in *. cbn [diag_from].
  destruct (nth_error r k) as [v |] eqn:Hk.
  2: { apply nth_error_None in Hk. lia. }
  cbn [length]. f_equal. apply IH.
  apply (Forall_impl (P := fun r => (k + S (length rows) <= length r)%nat));
    [| exact HF']. intros a Ha. lia.
Qed.

(** X6: on an n-by-n covariance matrix with no negative entry on its diagonal
    [covToStdDev] returns n standard deviations, the i-th being the square
    root of the i-th diagonal entry. *)
Theorem covToStdDev_square (cov : list Array) :
  Forall (fun row => length row = length cov) cov ->
  Forall (fun v => ltb v zero = false) (np_diag cov) ->
  exists sd,
    covToStdDev cov = Ok sd
    /\ length sd = length cov
    /\ forall i row v, nth_error cov i = Some row -> nth_error row i = Some v ->
                       nth_error sd i = Some (sqrt v).
Proof.
  intros Hsq Hpos. exists (map sqrt (np_diag cov)).
  assert (Hsq' : Forall (fun r => (0 + length cov <= length r)%nat) cov).
  { apply (Forall_impl (P := fun row => length row = length cov)); [| exact Hsq].
    intros r Hr. lia. }
  split; [| split].
  - rewrite covToStdDev_spec.
    apply existsb_false_Forall in Hpos. rewrite Hpos. reflexivity.
  - rewrite length_map. unfold np_diag. apply diag_from_length. exact Hsq'.
  - intros i row v Hrow Hv. rewrite nth_error_map. unfold np_diag.
    rewrite diag_from_nth; [| exact Hsq' |].
    + rewrite Hrow. cbn. rewrite Hv. reflexivity.
    + apply nth_error_Some. rewrite Hrow. discriminate.
Qed.

Lemma covToStdDev_square_witness :
  exists sd,
    covToStdDev [[of_Z 4; one; zero]; [one; of_Z 9; zero]; [zero; zero; of_Z 16]]
    = Ok sd
    /\ length sd = 3%nat
    /\ nth_error sd 1 = Some (sqrt (of_Z 9)).
Proof.
  destruct (covToStdDev_square
              [[of_Z 4; one; zero]; [one; of_Z 9; zero]; [zero; zero; of_Z 16]])
    as (sd & H1 & H2 & H3).
  - repeat constructor.
  - repeat constructor.
  - exists sd. split; [exact H1 |]. split; [exact H2 |].
    apply (H3 1%nat [one; of_Z 9; zero] (of_Z 9)); reflexivity.
Defined.

(** ** The difference curve *)

Section CurveProperties.

Variable exp : float -> float.

Lemma exponential_length (x : Array) (a b c : float) (e : Array) :
  exponential exp x a b c = Ok e -> length e = length x.
Proof.
  unfold exponential, np_exp, Ufunc.scalar_mul, Ufunc.add_scalar.
  destruct (Ufunc.unary (mul_flag b) (mul b) x) as [bx |] eqn:H1; [| discriminate].
  cbn [bind].
  destruct (Ufunc.unary _ exp bx) as [ex |] eqn:H2; [| discriminate].
  cbn [bind].
  destruct (Ufunc.unary (mul_flag a) (mul a) ex) as [ae |] eqn:H3; [| discriminate].
  cbn [bind]. intros H4.
  apply unary_length in H1, H2, H3, H4. lia.
Qed.

Lemma polyval_loop_length (x : Array) (rest : list float) :
  forall c0 p, length c0 = length x ->
  polyval_loop x c0 rest = Ok p -> length p = length x.
Proof.
  induction rest as [| ci rest IH]; intros c0 p Hc; cbn.
  - intros H. inversion H; subst. exact Hc.
  - destruct (Ufunc.multiply c0 x) as [c0x |] eqn:H1; [| discriminate].
    cbn [bind]. unfold Ufunc.scalar_add.
    destruct (Ufunc.unary _ _ c0x) as [c0' |] eqn:H2; [| discriminate].
    cbn [bind]. apply IH.
    apply binary_length in H1. apply unary_length in H2. lia.
Qed.

Lemma polynomial_length (x : Array) (coefs : list float) (p : Array) :
  polynomial x coefs = Ok p -> length p = length x.
Proof.
  unfold polynomial. destruct coefs as [| c0 cs]; [discriminate |].
  unfold Ufunc.scalar_mul, Ufunc.scalar_add.
  destruct (Ufunc.unary (mul_flag one) (mul one) x) as [sx |] eqn:H1; [| discriminate].
  cbn [bind].
  destruct (Ufunc.unary (add_flag zero) _ sx) as [arg |] eqn:H2; [| discriminate].
  cbn [bind]. unfold polyval.
  destruct (rev (c0 :: cs)) as [| clast rest]; [discriminate |].
  unfold Ufunc.mul_scalar, Ufunc.scalar_add.
  destruct (Ufunc.unary _ _ arg) as [x0 |] eqn:H3; [| discriminate].
  cbn [bind].
  destruct (Ufunc.unary _ _ x0) as [c0' |] eqn:H4; [| discriminate].
  cbn [bind]. intros H5.
  apply unary_length in H1, H2, H3, H4.
  apply polyval_loop_length in H5; lia.
Qed.

Lemma diffExpPoly_length (x expParams polyParams d : Array) :
  diffExpPoly exp x expParams polyParams = Ok d -> length d = length x.
Proof.
  unfold diffExpPoly.
  destruct expParams as [| a [| b [| c [| ? ?]]]]; try discriminate.
  destruct (exponential exp x a b c) as [e |] eqn:He; [| discriminate].
  cbn [bind].
  destruct (polynomial x polyParams) as [p |] eqn:Hp; [| discriminate].
  cbn [bind].
  destruct (Ufunc.subtract e p) as [s |] eqn:Hs; [| discriminate].
  cbn [bind]. intros H. inversion H; subst.
  apply exponential_length in He. apply binary_length in Hs.
  unfold Ufunc.absolute. rewrite length_map. lia.
Qed.

(** X7: when [diffExpPoly] returns, the curve has one sample per sample of
    [x] and none of them is negative; it returns only for three exponential
    parameters and at least one polynomial coefficient. *)
Theorem diffExpPoly_shape (x expParams polyParams d : Array) :
  diffExpPoly exp x expParams polyParams = Ok d ->
  length d = length x
  /\ Forall (fun v => ltb v zero = false) d
  /\ length expParams = 3%nat
  /\ polyParams <> [].
Proof.
  unfold diffExpPoly.
  destruct expParams as [| a [| b [| c [| ? ?]]]]; try discriminate.
  destruct (exponential exp x a b c) as [e |] eqn:He; [| discriminate].
  cbn [bind].
  destruct (polynomial x polyParams) as [p |] eqn:Hp; [| discriminate].
  cbn [bind].
  destruct (Ufunc.subtract e p) as [s |] eqn:Hs; [| discriminate].
  cbn [bind]. intros H. inversion H; subst. clear H.
  apply exponential_length in He.
  assert (Hne : polyParams <> []) by (intros ->; discriminate Hp).
  apply polynomial_length in Hp. apply binary_length in Hs.
  unfold Ufunc.absolute. rewrite length_map.
  split; [lia |]. split; [| split; [reflexivity | exact Hne]].
  apply Forall_forall. intros v Hv. apply in_map_iff in Hv.
  destruct Hv as (u & <- & _). apply abs_not_negative.
Qed.

(** X8: when [diffExpPoly] returns, its sample at [i] is the absolute value of
    the difference of the two models at [i]; where the two models give the
    same number it is exactly [0.0]. *)
Theorem diffExpPoly_samples (x : Array) (a b c : float) (coefs e p d : Array) :
  exponential exp x a b c = Ok e ->
  polynomial x coefs = Ok p ->
  diffExpPoly exp x [a; b; c] coefs = Ok d ->
  forall i u v, nth_error e i = Some u -> nth_error p i = Some v ->
    nth_error d i = Some (abs (sub u v))
    /\ (u = v -> is_nan v = false -> nth_error d i = Some zero).
Proof.
  intros He Hp. unfold diffExpPoly. rewrite He, Hp. cbn [bind].
  unfold Ufunc.subtract, Ufunc.binary.
  destruct (Nat.eqb (length e) (length p)); [| discriminate].
  destruct (Ufunc.raised _) eqn:Hr; [discriminate |].
  cbn [bind]. intros H. inversion H; subst. clear H.
  intros i u v Hu Hv.
  assert (Hc : nth_error (combine e p) i = Some (u, v)).
  { clear - Hu Hv. revert p i Hu Hv.
    induction e as [| e0 e IH]; intros p i Hu Hv; [destruct i; discriminate |].
    destruct p as [| p0 p]; [destruct i; discriminate |].
    destruct i as [| i]; cbn in *.
    - inversion Hu; inversion Hv; reflexivity.
    - apply IH; assumption. }
  assert (Hd : nth_error (Ufunc.absolute
                 (map (fun pr => sub (fst pr) (snd pr)) (combine e p))) i
               = Some (abs (sub u v))).
  { unfold Ufunc.absolute. rewrite !nth_error_map, Hc. reflexivity. }
  split; [exact Hd |].
  intros -> Hn. rewrite Hd. f_equal.
  apply raised_none in Hr.
  assert (Hf : sub_flag v v = None).
  { rewrite Forall_forall in Hr.
    apply (Hr (sub_flag v v)). apply in_map_iff. exists (v, v).
    split; [reflexivity |]. apply (nth_error_In _ _ Hc). }
  rewrite (sub_self v Hn Hf). reflexivity.
Qed.

End CurveProperties.

Lemma diffExpPoly_shape_witness :
  length (map of_Z [0; 3; 4; 3; 0]) = length hill_x
  /\ Forall (fun v => ltb v zero = false) (map of_Z [0; 3; 4; 3; 0])
  /\ length (fst flat_exp) = 3%nat
  /\ fst hill_poly <> [].
Proof.
  apply (diffExpPoly_shape exp_at_zero hill_x (fst flat_exp) (fst hill_poly)).
  vm_compute. reflexivity.
Defined.

Lemma diffExpPoly_samples_witness :
  nth_error (map of_Z [0; 3; 4; 3; 0]) 0 = Some zero.
Proof.
  refine (proj2 (diffExpPoly_samples exp_at_zero hill_x zero zero zero
                   (fst hill_poly) [zero; zero; zero; zero; zero]
                   (map of_Z [0; 3; 4; 3; 0]) (map of_Z [0; 3; 4; 3; 0])
                   _ _ _ 0%nat zero zero _ _) _ _);
    vm_compute; reflexivity.
Defined.

(** ** The peaks *)

Module ScipyMore.

Import Scipy.
Local Open Scope nat_scope.

(** Every peak is inside the curve and not lower than its neighbours. *)
Lemma find_peaks_local_max (d : Array) (p : nat) :
  In p (find_peaks d) ->
  1 <= p /\ p + 1 < length d
  /\ leb (at_ d (p - 1)) (at_ d p) = true
  /\ leb (at_ d (p + 1)) (at_ d p) = true.
Proof.
  intros H. apply ScipyFacts.find_peaks_spec in H.
  destruct H as (l & r & (H1 & H2 & H3 & H4 & H5 & H6) & ->).
  assert (Hlo : l <= (l + r) / 2) by (apply Nat.div_le_lower_bound; lia).
  assert (Hhi : (l + r) / 2 <= r) by (apply Nat.Div0.div_le_upper_bound; lia).
  set (p := (l + r) / 2) in *.
  assert (Hl : eqb (at_ d l) (at_ d l) = true) by exact (ltb_refl_r _ _ H4).
  assert (Heq : forall j, l <= j <= r -> eqb (at_ d j) (at_ d l) = true).
  { intros j Hj. destruct (Nat.eq_dec j l) as [-> | Hne]; [exact Hl |].
    apply H5. lia. }
  split; [lia |]. split; [lia |]. split.
  - destruct (Nat.eq_dec p l) as [E | E].
    + rewrite E. apply ltb_leb. exact H4.
    + apply (eqb_eqb_leb _ _ (at_ d l)); apply Heq; lia.
  - destruct (Nat.eq_dec p r) as [E | E].
    + rewrite E. apply (ltb_eqb_leb _ _ (at_ d l)); [exact H6 |]. apply Heq. lia.
    + apply (eqb_eqb_leb _ _ (at_ d l)); apply Heq; lia.
Qed.

Lemma local_maxima_loop_increasing (d : Array) (i_max fuel : nat) :
  forall i, StronglySorted lt (local_maxima_loop fuel d i i_max).
Proof.
  induction fuel as [| fuel IH]; intros i; cbn [local_maxima_loop];
    [constructor |].
  destruct (i <? i_max); [| constructor].
  pose proof (ScipyFacts.plateau_end_ge (length d) d i i_max (S i)) as He.
  destruct (ltb (at_ d (i - 1)) (at_ d i)); [| apply IH].
  destruct (ltb (at_ d _) (at_ d i)); [| apply IH].
  constructor; [apply IH |].
  apply Forall_forall. intros q Hq.
  apply ScipyFacts.local_maxima_loop_ge in Hq.
  assert ((i + (plateau_end (length d) d i (S i) i_max - 1)) / 2
          <= plateau_end (length d) d i (S i) i_max - 1)
    by (apply Nat.Div0.div_le_upper_bound; lia).
  lia.
Qed.

Lemma find_peaks_increasing (d : Array) : StronglySorted lt (find_peaks d).
Proof. apply local_maxima_loop_increasing. Qed.

End ScipyMore.

Section StableSort.

Context {A : Type} (key : A -> float) (ltA : A -> A -> Prop).

Lemma insert_desc_ties (x : A) (l : list A) :
  Forall (ltA x) l ->
  StronglySorted (tie_order key ltA) l ->
  StronglySorted (tie_order key ltA) (insert_desc key x l).
Proof.
  intros Hx Hs. induction Hs as [| y l Hs IH Hy]; cbn.
  - constructor; constructor.
  - inversion Hx as [| ? ? Hxy Hx']; subst.
    destruct (ltb (key x) (key y)) eqn:Hlt.
    + constructor; [apply IH; exact Hx' |].
      apply (Permutation_Forall (x := x :: l)).
      * symmetry. apply insert_desc_perm.
      * constructor; [| exact Hy].
        intros Heq. exfalso.
        apply ltb_not_eqb in Hlt. rewrite eqb_sym in Hlt. congruence.
    + constructor; [constructor; assumption |]. constructor.
      * intros _. exact Hxy.
      * apply (Forall_impl (P := ltA x)); [| exact Hx'].
        intros z Hz _. exact Hz.
Qed.

Lemma sorted_reverse_ties (l : list A) :
  StronglySorted ltA l -> StronglySorted (tie_order key ltA) (sorted_reverse key l).
Proof.
  induction 1 as [| x l Hs IH Hx]; cbn; [constructor |].
  apply insert_desc_ties; [| exact IH].
  apply (Permutation_Forall (x := l)); [| exact Hx].
  symmetry. apply sorted_reverse_perm.
Qed.

End StableSort.

Lemma StronglySorted_map_of_nat (l : list nat) :
  StronglySorted lt l -> StronglySorted Z.lt (map Z.of_nat l).
Proof.
  induction 1 as [| a l Hs IH Ha]; cbn; constructor; [exact IH |].
  apply Forall_forall. intros z Hz. apply in_map_iff in Hz.
  destruct Hz as (b & <- & Hb). rewrite Forall_forall in Ha.
  apply Nat2Z.inj_lt. apply Ha. exact Hb.
Qed.

(** Peaks of equal value keep the order of their indices. *)
Lemma rankPeaks_ties (d : Array) :
  StronglySorted (tie_order (value_at d) Z.lt) (rankPeaks d).
Proof.
  unfold rankPeaks. apply (sorted_reverse_ties (value_at d) Z.lt).
  apply StronglySorted_map_of_nat. apply ScipyMore.find_peaks_increasing.
Qed.

(** ** The fits, the discovery of the peaks and fitRCRT *)

Lemma slice_to_all {A} (a : list A) (stop : Z) :
  Z.of_nat (length a) <= stop -> slice_to a stop = a.
Proof.
  intros H. unfold slice_to.
  destruct (Z.ltb_spec stop 0) as [Hn | Hn]; [lia |].
  rewrite Z.min_r by lia. rewrite Nat2Z.id. apply firstn_all.
Qed.

Lemma slice_to_negative {A} (a : list A) (stop : Z) :
  stop < 0 -> slice_to a stop = firstn (length a - Z.to_nat (- stop)) a.
Proof.
  intros H. unfold slice_to.
  destruct (Z.ltb_spec stop 0) as [Hn | Hn]; [| lia].
  f_equal. lia.
Qed.

Lemma slice_to_zero {A} (a : list A) : slice_to a 0 = [].
Proof.
  unfold slice_to. cbn. rewrite Z.min_l by lia. reflexivity.
Qed.

Section MoreFitProperties.

Variable curve_fit_run : ModelFn -> Array -> Array -> Array -> Bounds -> Outcome.
Variable exp : float -> float.
Variable repr_float : float -> string.

Local Abbreviation fitExponential := (fitExponential curve_fit_run repr_float).
Local Abbreviation fitPolynomial := (fitPolynomial curve_fit_run repr_float).
Local Abbreviation fitRCRT_int := (fitRCRT_int curve_fit_run repr_float).
Local Abbreviation fitRCRT_for := (fitRCRT_for curve_fit_run repr_float).
Local Abbreviation fitRCRT := (fitRCRT curve_fit_run exp repr_float).
Local Abbreviation findMaxDivergencePeaks := (findMaxDivergencePeaks curve_fit_run exp repr_float).
Local Abbreviation candidate_fit := (candidate_fit curve_fit_run repr_float).
Local Abbreviation int_failed_msg := (int_failed_msg repr_float).
Local Abbreviation full_exp_fit := (full_exp_fit curve_fit_run repr_float).
Local Abbreviation full_poly_fit := (full_poly_fit curve_fit_run repr_float).

(** What a fit does with each outcome of the solver. *)
Lemma fitExponential_outcome (x y : Array) (p0 : option Array) :
  fst (fitExponential x y p0 [])
  = match curve_fit_run f_exponential x y (p0_or_default p0) exp_bounds with
    | Returns popt pcov =>
        if existsb (fun v => ltb v zero) (np_diag pcov)
        then Raise (RuntimeWarning Invalid)
        else Ok (popt, map sqrt (np_diag pcov))
    | Warns e | Raises e =>
        if is_RuntimeError_or_OptimizeWarning e
        then Raise (RuntimeError (exp_failure_msg repr_float p0) (Some e))
        else Raise e
    end.
Proof.
  unfold CurveFitting.fitExponential, try_except, bindF, curve_fit, lift, ret,
    raise, warn.
  destruct (curve_fit_run f_exponential x y (p0_or_default p0) exp_bounds)
    as [popt pcov | w | e]; cbn.
  - rewrite covToStdDev_spec. destruct (existsb _ _); reflexivity.
  - destruct (is_RuntimeError_or_OptimizeWarning w); reflexivity.
  - destruct (is_RuntimeError_or_OptimizeWarning e); reflexivity.
Qed.

Lemma fitPolynomial_outcome (x y : Array) (p0 : option Array) :
  fst (fitPolynomial x y p0 [])
  = match curve_fit_run f_polynomial x y (poly_p0_or_default p0) poly_bounds with
    | Returns popt pcov =>
        if existsb (fun v => ltb v zero) (np_diag pcov)
        then Raise (RuntimeWarning Invalid)
        else Ok (popt, map sqrt (np_diag pcov))
    | Warns e | Raises e =>
        if is_RuntimeError_or_OptimizeWarning e
        then Raise (RuntimeError (poly_failure_msg repr_float p0) (Some e))
        else Raise e
    end.
Proof.
  unfold CurveFitting.fitPolynomial, try_except, bindF, curve_fit, lift, ret,
    raise, warn.
  destruct (curve_fit_run f_polynomial x y (poly_p0_or_default p0) poly_bounds)
    as [popt pcov | w | e]; cbn.
  - rewrite covToStdDev_spec. destruct (existsb _ _); reflexivity.
  - destruct (is_RuntimeError_or_OptimizeWarning w); reflexivity.
  - destruct (is_RuntimeError_or_OptimizeWarning e); reflexivity.
Qed.

(** X9: a fit returns a result exactly when the solver returns and the
    covariance has no negative entry on its diagonal; the result is then the
    solver's parameters with the square roots of that diagonal. *)
Theorem fit_succeeds_iff (x y : Array) (p0 : option Array) (log : list Call)
    (r : FitParametersTuple) :
  (fst (fitExponential x y p0 log) = Ok r
   <-> exists popt pcov,
         curve_fit_run f_exponential x y (p0_or_default p0) exp_bounds
         = Returns popt pcov
         /\ Forall (fun v => ltb v zero = false) (np_diag pcov)
         /\ r = (popt, map sqrt (np_diag pcov)))
  /\ (fst (fitPolynomial x y p0 log) = Ok r
      <-> exists popt pcov,
            curve_fit_run f_polynomial x y (poly_p0_or_default p0) poly_bounds
            = Returns popt pcov
            /\ Forall (fun v => ltb v zero = false) (np_diag pcov)
            /\ r = (popt, map sqrt (np_diag pcov))).
Proof.
  rewrite fitExponential_run, fitPolynomial_run. cbn [fst].
  rewrite fitExponential_outcome, fitPolynomial_outcome.
  split.
  - destruct (curve_fit_run f_exponential _ _ _ _) as [popt pcov | w | e].
    + destruct (existsb _ (np_diag pcov)) eqn:Hex; split.
      * discriminate.
      * intros (po & pc & H & HF & _). inversion H; subst.
        apply existsb_false_Forall in HF. congruence.
      * intros H. inversion H; subst. exists popt, pcov.
        split; [reflexivity |]. split; [| reflexivity].
        apply existsb_false_Forall. exact Hex.
      * intros (po & pc & H & _ & ->). inversion H; subst. reflexivity.
    + split; [destruct (is_RuntimeError_or_OptimizeWarning w); discriminate |].
      intros (po & pc & H & _). discriminate.
    + split; [destruct (is_RuntimeError_or_OptimizeWarning e); discriminate |].
      intros (po & pc & H & _). discriminate.
  - destruct (curve_fit_run f_polynomial _ _ _ _) as [popt pcov | w | e].
    + destruct (existsb _ (np_diag pcov)) eqn:Hex; split.
      * discriminate.
      * intros (po & pc & H & HF & _). inversion H; subst.
        apply existsb_false_Forall in HF. congruence.
      * intros H. inversion H; subst. exists popt, pcov.
        split; [reflexivity |]. split; [| reflexivity].
        apply existsb_false_Forall. exact Hex.
      * intros (po & pc & H & _ & ->). inversion H; subst. reflexivity.
    + split; [destruct (is_RuntimeError_or_OptimizeWarning w); discriminate |].
      intros (po & pc & H & _). discriminate.
    + split; [destruct (is_RuntimeError_or_OptimizeWarning e); discriminate |].
      intros (po & pc & H & _). discriminate.
Qed.

(** X10: when the solver returns a covariance with a negative entry on its
    diagonal, either fit raises NumPy's invalid-value warning from the square
    root: it is not caught by the [except] clause and is not a fit failure. *)
Theorem fit_negative_variance (x y : Array) (p0 : option Array)
    (log : list Call) (popt : Array) (pcov : list Array) :
  Exists (fun v => ltb v zero = true) (np_diag pcov) ->
  (curve_fit_run f_exponential x y (p0_or_default p0) exp_bounds
   = Returns popt pcov ->
   fitExponential x y p0 log
   = (Raise (RuntimeWarning Invalid),
      (log ++ [exp_call x y (p0_or_default p0)])%list))
  /\ (curve_fit_run f_polynomial x y (poly_p0_or_default p0) poly_bounds
      = Returns popt pcov ->
      fitPolynomial x y p0 log
      = (Raise (RuntimeWarning Invalid),
         (log ++ [poly_call x y (poly_p0_or_default p0)])%list))
  /\ is_RuntimeError (RuntimeWarning Invalid) = false.
Proof.
  intros Hneg. apply existsb_true_Exists in Hneg.
  split; [| split; [| reflexivity]]; intros Hrun.
  - rewrite fitExponential_run, fitExponential_outcome, Hrun, Hneg. reflexivity.
  - rewrite fitPolynomial_run, fitPolynomial_outcome, Hrun, Hneg. reflexivity.
Qed.

(** X11: an exception or warning of the solver that is neither a
    [RuntimeError] nor an [OptimizeWarning] leaves either fit as it is, not
    wrapped in a fit failure. *)
Theorem fit_other_exception_passes (x y : Array) (p0 : option Array)
    (log : list Call) (e : exn) :
  is_RuntimeError_or_OptimizeWarning e = false ->
  ((curve_fit_run f_exponential x y (p0_or_default p0) exp_bounds = Raises e
    \/ curve_fit_run f_exponential x y (p0_or_default p0) exp_bounds = Warns e) ->
   fitExponential x y p0 log
   = (Raise e, (log ++ [exp_call x y (p0_or_default p0)])%list))
  /\ ((curve_fit_run f_polynomial x y (poly_p0_or_default p0) poly_bounds = Raises e
       \/ curve_fit_run f_polynomial x y (poly_p0_or_default p0) poly_bounds = Warns e) ->
      fitPolynomial x y p0 log
      = (Raise e, (log ++ [poly_call x y (poly_p0_or_default p0)])%list)).
Proof.
  intros He. split; intros [Hrun | Hrun].
  - rewrite fitExponential_run, fitExponential_outcome, Hrun, He. reflexivity.
  - rewrite fitExponential_run, fitExponential_outcome, Hrun, He. reflexivity.
  - rewrite fitPolynomial_run, fitPolynomial_outcome, Hrun, He. reflexivity.
  - rewrite fitPolynomial_run, fitPolynomial_outcome, Hrun, He. reflexivity.
Qed.

(** The branch for one index, whatever the fit does. *)
Lemma fitRCRT_int_run (x y p0 : Array) (idx : Z) (log : list Call) :
  fitRCRT_int x y p0 idx log
  = (match candidate_fit x y p0 idx with
     | Ok r => Ok (r, idx)
     | Raise e =>
         if is_RuntimeError e
         then Raise (RuntimeError (int_failed_msg p0 idx) (Some e))
         else Raise e
     end,
     (log ++ [candidate_call x y p0 idx])%list).
Proof.
  unfold CurveFitting.fitRCRT_int, try_except, bindF, ret, raise.
  rewrite fitExponential_run. fold (candidate_fit x y p0 idx).
  destruct (candidate_fit x y p0 idx) as [r | e]; cbn; [reflexivity |].
  destruct (is_RuntimeError e); reflexivity.
Qed.

(** X12: with a single index [fitRCRT] makes one exponential fit on
    [x[:idx]], [y[:idx]]: it returns the fit with the index; a fit failure is
    raised again as a [RuntimeError] that names the index and the initial
    guess and has the fit failure as its cause; any other exception passes
    unchanged. *)
Theorem fitRCRT_single_index (x y : Array) (p0 : option Array) (idx : Z)
    (log : list Call) :
  (forall r, candidate_fit x y (p0_or_default p0) idx = Ok r ->
     fitRCRT x y p0 (MaxDivInt idx) log
     = (Ok (r, idx), (log ++ [candidate_call x y (p0_or_default p0) idx])%list))
  /\ (forall e, candidate_fit x y (p0_or_default p0) idx = Raise e ->
        is_RuntimeError e = true ->
        fitRCRT x y p0 (MaxDivInt idx) log
        = (Raise (RuntimeError (int_failed_msg (p0_or_default p0) idx) (Some e)),
           (log ++ [candidate_call x y (p0_or_default p0) idx])%list))
  /\ (forall e, candidate_fit x y (p0_or_default p0) idx = Raise e ->
        is_RuntimeError e = false ->
        fitRCRT x y p0 (MaxDivInt idx) log
        = (Raise e, (log ++ [candidate_call x y (p0_or_default p0) idx])%list)).
Proof.
  cbn [CurveFitting.fitRCRT].
  split; [| split]; intros r Hr; try intros He;
    rewrite fitRCRT_int_run, Hr, ?He; reflexivity.
Qed.

(** X13: the data a single index selects: at or past the end of both arrays
    the fit is on the whole series, at zero it is on empty arrays, and a
    negative index leaves out that many samples at the end. *)
Theorem fitRCRT_index_edges (x y : Array) (p0 : option Array) (idx : Z)
    (log : list Call) :
  (Z.of_nat (length x) <= idx -> Z.of_nat (length y) <= idx ->
   snd (fitRCRT x y p0 (MaxDivInt idx) log)
   = (log ++ [exp_call x y (p0_or_default p0)])%list)
  /\ (idx = 0 ->
      snd (fitRCRT x y p0 (MaxDivInt idx) log)
      = (log ++ [exp_call [] [] (p0_or_default p0)])%list)
  /\ (idx < 0 ->
      snd (fitRCRT x y p0 (MaxDivInt idx) log)
      = (log ++ [exp_call (firstn (length x - Z.to_nat (- idx)) x)
                          (firstn (length y - Z.to_nat (- idx)) y)
                          (p0_or_default p0)])%list).
Proof.
  cbn [CurveFitting.fitRCRT]. rewrite fitRCRT_int_run. cbn [snd].
  unfold candidate_call. split; [| split].
  - intros Hx Hy. rewrite !slice_to_all by assumption. reflexivity.
  - intros ->. rewrite !slice_to_zero. reflexivity.
  - intros Hn. rewrite !slice_to_negative by assumption. reflexivity.
Qed.

(** Every outcome of the loop: all the fits fail, or the loop ends at the
    first candidate whose fit does not fail. *)
Lemma fitRCRT_for_cases (x y p0 : Array) (l : list Z) (e0 : exn) (log : list Call) :
  (Forall (fun i => fit_failure (candidate_fit x y p0 i)) l
   /\ fitRCRT_for x y p0 l (raise e0) log
      = (Raise e0, (log ++ map (candidate_call x y p0) l)%list))
  \/ (exists failed idx rest,
        l = (failed ++ idx :: rest)%list
        /\ Forall (fun i => fit_failure (candidate_fit x y p0 i)) failed
        /\ ~ fit_failure (candidate_fit x y p0 idx)
        /\ fitRCRT_for x y p0 l (raise e0) log
           = (match candidate_fit x y p0 idx with
              | Ok r => Ok (r, idx)
              | Raise e => Raise e
              end,
              (log ++ map (candidate_call x y p0) (failed ++ [idx]))%list)).
Proof.
  revert log. induction l as [| i l IH]; intros log.
  - left. split; [constructor |]. cbn. rewrite app_nil_r. reflexivity.
  - assert (Hstep : fitRCRT_for x y p0 (i :: l) (raise e0) log
                    = match candidate_fit x y p0 i with
                      | Ok r => (Ok (r, i), (log ++ [candidate_call x y p0 i])%list)
                      | Raise e =>
                          if is_RuntimeError e
                          then fitRCRT_for x y p0 l (raise e0)
                                 (log ++ [candidate_call x y p0 i])%list
                          else (Raise e, (log ++ [candidate_call x y p0 i])%list)
                      end).
    { cbn [CurveFitting.fitRCRT_for]. unfold try_except at 1.
      rewrite fitRCRT_int_run.
      destruct (candidate_fit x y p0 i) as [r | e]; [reflexivity |].
      destruct (is_RuntimeError e) eqn:E; cbn; rewrite ?E; reflexivity. }
    rewrite Hstep. clear Hstep.
    destruct (candidate_fit x y p0 i) as [r | e] eqn:Hi.
    + right. exists [], i, l. rewrite Hi.
      split; [reflexivity |]. split; [constructor |]. split; [| reflexivity].
      intros (m & c & H). discriminate.
    + destruct (is_RuntimeError e) eqn:He.
      * assert (Hfi : fit_failure (candidate_fit x y p0 i)).
        { rewrite Hi. destruct e; try discriminate. eexists _, _. reflexivity. }
        destruct (IH (log ++ [candidate_call x y p0 i])%list)
          as [[HF Hrun] | (failed & idx & rest & -> & HF & Hn & Hrun)].
        -- left. split; [constructor; assumption |].
           rewrite Hrun. cbn [map]. rewrite <- app_assoc. reflexivity.
        -- right. exists (i :: failed), idx, rest.
           split; [reflexivity |]. split; [constructor; assumption |].
           split; [exact Hn |]. rewrite Hrun. cbn [map app].
           rewrite <- app_assoc. reflexivity.
      * right. exists [], i, l. rewrite Hi.
        split; [reflexivity |]. split; [constructor |]. split; [| reflexivity].
        intros (m & c & H). inversion H; subst. discriminate.
Qed.

(** X14: in list mode an exception of a candidate's fit that is not a
    [RuntimeError] is not absorbed: it leaves [fitRCRT] as it is and no later
    candidate is tried. *)
Theorem fitRCRT_list_other_exception (x y : Array) (p0 : option Array)
    (failed : list Z) (idx : Z) (rest : list Z) (e : exn) (log : list Call) :
  Forall (fun i => fit_failure (candidate_fit x y (p0_or_default p0) i)) failed ->
  candidate_fit x y (p0_or_default p0) idx = Raise e ->
  is_RuntimeError e = false ->
  fitRCRT x y p0 (MaxDivList (failed ++ idx :: rest)) log
  = (Raise e,
     (log ++ map (candidate_call x y (p0_or_default p0)) (failed ++ [idx]))%list).
Proof.
  intros HF He Hne. cbn [CurveFitting.fitRCRT]. unfold CurveFitting.fitRCRT_list.
  cbv zeta. rewrite fitRCRT_for_skips by exact HF.
  cbn [CurveFitting.fitRCRT_for]. unfold try_except.
  rewrite fitRCRT_int_run, He, Hne. cbn. rewrite Hne.
  rewrite map_app, app_assoc. reflexivity.
Qed.

(** When list mode returns. *)
Lemma fitRCRT_list_inversion (x y : Array) (p0 : Array)
    (maxDivList : list Z) (r : FitParametersTuple) (idx : Z) (log : list Call) :
  fst (fitRCRT_list curve_fit_run repr_float x y p0 maxDivList log) = Ok (r, idx) ->
  exists failed rest,
    maxDivList = (failed ++ idx :: rest)%list
    /\ Forall (fun i => fit_failure (candidate_fit x y p0 i)) failed
    /\ candidate_fit x y p0 idx = Ok r.
Proof.
  unfold CurveFitting.fitRCRT_list.
  match goal with
  | |- context [CurveFitting.fitRCRT_for _ _ _ _ _ _ (raise ?e0) _] =>
      destruct (fitRCRT_for_cases x y p0 maxDivList e0 log)
        as [[_ Hrun] | (failed & i & rest & -> & HF & _ & Hrun)]
  end.
  - rewrite Hrun. discriminate.
  - rewrite Hrun. cbn [fst].
    destruct (candidate_fit x y p0 i) as [r' | e] eqn:Hi; [| discriminate].
    intros H. inversion H; subst. exists failed, rest.
    split; [reflexivity |]. split; [exact HF | exact Hi].
Qed.

(** X15: what list mode returns is one of the candidates with the fit on its
    slice, and the fits of all the candidates before it failed. *)
Theorem fitRCRT_list_returns_candidate (x y : Array) (p0 : option Array)
    (maxDivList : list Z) (r : FitParametersTuple) (idx : Z) (log : list Call) :
  fst (fitRCRT x y p0 (MaxDivList maxDivList) log) = Ok (r, idx) ->
  exists failed rest,
    maxDivList = (failed ++ idx :: rest)%list
    /\ Forall (fun i => fit_failure (candidate_fit x y (p0_or_default p0) i)) failed
    /\ candidate_fit x y (p0_or_default p0) idx = Ok r.
Proof. apply fitRCRT_list_inversion. Qed.

(** X16: whatever the outcome, list mode calls the solver on the candidates
    of a prefix of the list and on nothing else: once each, in list order,
    with the caller's initial guess. *)
Theorem fitRCRT_list_calls (x y : Array) (p0 : option Array)
    (maxDivList : list Z) (log : list Call) :
  exists tried later,
    maxDivList = (tried ++ later)%list
    /\ snd (fitRCRT x y p0 (MaxDivList maxDivList) log)
       = (log ++ map (candidate_call x y (p0_or_default p0)) tried)%list.
Proof.
  cbn [CurveFitting.fitRCRT]. unfold CurveFitting.fitRCRT_list. cbv zeta.
  match goal with
  | |- context [CurveFitting.fitRCRT_for _ _ _ _ _ _ (raise ?e0) _] =>
      destruct (fitRCRT_for_cases x y (p0_or_default p0) maxDivList e0 log)
        as [[_ Hrun] | (failed & i & rest & -> & HF & _ & Hrun)]
  end.
  - exists maxDivList, []. rewrite Hrun, app_nil_r. split; reflexivity.
  - exists (failed ++ [i])%list, rest. rewrite Hrun, <- app_assoc.
    split; reflexivity.
Qed.

(** The discovery of the peaks from the raw series, step by step. *)
Lemma findMaxDivergencePeaks_raw_run (x y : Array) (log : list Call) :
  findMaxDivergencePeaks x (RawSeries y) log
  = match full_exp_fit x y with
    | Raise e => (Raise e, (log ++ [exp_call x y (p0_or_default None)])%list)
    | Ok expTuple =>
        match full_poly_fit x y with
        | Raise e => (Raise e, (log ++ full_calls x y)%list)
        | Ok polyTuple =>
            (findMaxDivergencePeaks_kw exp x expTuple polyTuple,
             (log ++ full_calls x y)%list)
        end
    end.
Proof.
  unfold FullFit.full_exp_fit, FullFit.full_poly_fit, full_calls.
  unfold CurveFitting.findMaxDivergencePeaks, bindF, lift.
  rewrite (fitExponential_run _ _ x y None log).
  destruct (fst (fitExponential x y None [])) as [eT | e]; [| reflexivity].
  rewrite (fitPolynomial_run _ _ x y None (log ++ _)), <- app_assoc.
  destruct (fst (fitPolynomial x y None [])) as [pT | e]; reflexivity.
Qed.

Lemma prefitted_run (x : Array) (expTuple polyTuple : FitParametersTuple)
    (d : Array) (log : list Call) :
  diffExpPoly exp x (fst expTuple) (fst polyTuple) = Ok d ->
  findMaxDivergencePeaks x (Prefitted expTuple polyTuple) log
  = (Ok (rankPeaks d), log).
Proof.
  intros Hd.
  unfold CurveFitting.findMaxDivergencePeaks, lift, findMaxDivergencePeaks_kw.
  cbn [fst snd]. rewrite Hd. reflexivity.
Qed.

(** X17: from the raw series [findMaxDivergencePeaks] fits the exponential,
    then the polynomial, on the whole series with the default guesses, and
    gives what it gives for their two results; when the exponential fit
    raises, the polynomial is not fitted, and an exception of either fit is
    the exception of the call. *)
Theorem findMaxDivergencePeaks_raw (x y : Array) (log : list Call) :
  (forall e, full_exp_fit x y = Raise e ->
     findMaxDivergencePeaks x (RawSeries y) log
     = (Raise e, (log ++ [exp_call x y (p0_or_default None)])%list))
  /\ (forall expTuple e,
        full_exp_fit x y = Ok expTuple -> full_poly_fit x y = Raise e ->
        findMaxDivergencePeaks x (RawSeries y) log
        = (Raise e, (log ++ full_calls x y)%list))
  /\ (forall expTuple polyTuple,
        full_exp_fit x y = Ok expTuple -> full_poly_fit x y = Ok polyTuple ->
        findMaxDivergencePeaks x (RawSeries y) log
        = (fst (findMaxDivergencePeaks x (Prefitted expTuple polyTuple) []),
           (log ++ full_calls x y)%list)).
Proof.
  rewrite findMaxDivergencePeaks_raw_run.
  split; [| split].
  - intros e He. rewrite He. reflexivity.
  - intros eT e He Hp. rewrite He, Hp. reflexivity.
  - intros eT pT He Hp. rewrite He, Hp. reflexivity.
Qed.

(** Discovery mode, once the two fits on the whole series have succeeded. *)
Lemma fitRCRT_auto_run (x y : Array) (p0 : option Array)
    (expTuple polyTuple : FitParametersTuple) (peaks : list Z) (log : list Call) :
  full_exp_fit x y = Ok expTuple ->
  full_poly_fit x y = Ok polyTuple ->
  findMaxDivergencePeaks_kw exp x expTuple polyTuple = Ok peaks ->
  fitRCRT x y p0 MaxDivNone log
  = fitRCRT_list curve_fit_run repr_float x y (p0_or_default None) peaks
      (log ++ full_calls x y)%list.
Proof.
  intros He Hp Hk. cbn [CurveFitting.fitRCRT]. unfold bindF.
  rewrite findMaxDivergencePeaks_raw_run, He, Hp, Hk. reflexivity.
Qed.

(** X18: with [maxDiv] absent, once the two fits on the whole series have
    succeeded and the peaks are ranked, [fitRCRT] goes on as in list mode on
    the ranked peaks, without the caller's [p0]. *)
Theorem fitRCRT_auto_composes (x y : Array) (p0 : option Array)
    (expTuple polyTuple : FitParametersTuple) (peaks : list Z) (log : list Call) :
  full_exp_fit x y = Ok expTuple ->
  full_poly_fit x y = Ok polyTuple ->
  fst (findMaxDivergencePeaks x (Prefitted expTuple polyTuple) []) = Ok peaks ->
  fitRCRT x y p0 MaxDivNone log
  = fitRCRT x y None (MaxDivList peaks) (log ++ full_calls x y)%list.
Proof.
  intros He Hp Hk.
  rewrite (fitRCRT_auto_run x y p0 expTuple polyTuple peaks log He Hp);
    [reflexivity | exact Hk].
Qed.

(** X19: with [maxDiv] absent, when the two fits on the whole series succeed
    and the difference curve has no peak, [fitRCRT] raises the [RuntimeError]
    of list mode for an empty list, after those two calls of the solver. *)
Theorem fitRCRT_auto_no_peak (x y : Array) (p0 : option Array)
    (expTuple polyTuple : FitParametersTuple) (d : Array) (log : list Call) :
  full_exp_fit x y = Ok expTuple ->
  full_poly_fit x y = Ok polyTuple ->
  diffExpPoly exp x (fst expTuple) (fst polyTuple) = Ok d ->
  (forall l r, ~ plateau_peak d l r) ->
  fitRCRT x y p0 MaxDivNone log
  = (Raise (RuntimeError (all_failed_msg []) None), (log ++ full_calls x y)%list).
Proof.
  intros He Hp Hd Hno.
  assert (Hk : rankPeaks d = []).
  { destruct (rankPeaks_spec d) as (Hin & _).
    destruct (rankPeaks d) as [| i rest]; [reflexivity | exfalso].
    destruct (proj1 (Hin i) (or_introl eq_refl)) as (l & r & H & _).
    exact (Hno l r H). }
  rewrite (fitRCRT_auto_run x y p0 expTuple polyTuple [] log He Hp).
  - reflexivity.
  - unfold findMaxDivergencePeaks_kw. cbn [fst]. rewrite Hd. cbn [bind].
    rewrite Hk. reflexivity.
Qed.

(** X20: with [maxDiv] absent, the index [fitRCRT] returns is the middle of a
    peak of the difference curve of the two fits on the whole series, so it
    is inside the series, and the fit returned is the fit on [x[:idx]],
    [y[:idx]] with the default initial guess. *)
Theorem fitRCRT_auto_returns_peak (x y : Array) (p0 : option Array)
    (expTuple polyTuple : FitParametersTuple) (d : Array)
    (r : FitParametersTuple) (idx : Z) (log : list Call) :
  full_exp_fit x y = Ok expTuple ->
  full_poly_fit x y = Ok polyTuple ->
  diffExpPoly exp x (fst expTuple) (fst polyTuple) = Ok d ->
  fst (fitRCRT x y p0 MaxDivNone log) = Ok (r, idx) ->
  (exists lft rgt, plateau_peak d lft rgt /\ idx = Z.of_nat ((lft + rgt) / 2))
  /\ 0 < idx < Z.of_nat (length x) - 1
  /\ candidate_fit x y (p0_or_default None) idx = Ok r.
Proof.
  intros He Hp Hd.
  rewrite (fitRCRT_auto_run x y p0 expTuple polyTuple (rankPeaks d) log He Hp)
    by (unfold findMaxDivergencePeaks_kw; cbn [fst]; rewrite Hd; reflexivity).
  intros H.
  apply fitRCRT_list_inversion in H.
  destruct H as (failed & rest & Hl & _ & Hfit).
  assert (Hin : In idx (rankPeaks d)).
  { rewrite Hl. apply in_or_app. right. left. reflexivity. }
  destruct (rankPeaks_spec d) as (Hspec & _).
  destruct (proj1 (Hspec idx) Hin) as (l & r' & Hpk & ->).
  split; [exists l, r'; split; [exact Hpk | reflexivity] |].
  split; [| exact Hfit].
  pose proof (diffExpPoly_length exp _ _ _ _ Hd) as Hlen.
  destruct Hpk as (H1 & H2 & H3 & _).
  assert (Hlo : (l <= (l + r') / 2)%nat) by (apply Nat.div_le_lower_bound; lia).
  assert (Hhi : ((l + r') / 2 <= r')%nat)
    by (apply Nat.Div0.div_le_upper_bound; lia).
  lia.
Qed.

(** X21: in pre-fitted mode every index returned is inside the series
    (neither the first nor the last sample) and the curve there is not lower
    than at either neighbour. *)
Theorem findMaxDivergencePeaks_local_maxima (x : Array)
    (expTuple polyTuple : FitParametersTuple) (d : Array) (peaks : list Z)
    (log : list Call) :
  diffExpPoly exp x (fst expTuple) (fst polyTuple) = Ok d ->
  fst (findMaxDivergencePeaks x (Prefitted expTuple polyTuple) log) = Ok peaks ->
  Forall (fun i => 0 < i < Z.of_nat (length x) - 1
                   /\ leb (value_at d (i - 1)) (value_at d i) = true
                   /\ leb (value_at d (i + 1)) (value_at d i) = true) peaks.
Proof.
  intros Hd. rewrite (prefitted_run _ _ _ d log Hd). cbn [fst].
  intros H. inversion H; subst. clear H.
  pose proof (diffExpPoly_length exp _ _ _ _ Hd) as Hlen.
  apply Forall_forall. intros i Hi.
  unfold rankPeaks in Hi.
  apply (Permutation_in _ (sorted_reverse_perm _ _)) in Hi.
  apply in_map_iff in Hi. destruct Hi as (p & <- & Hp).
  destruct (ScipyMore.find_peaks_local_max d p Hp) as (H1 & H2 & H3 & H4).
  unfold value_at.
  replace (Z.to_nat (Z.of_nat p - 1)) with (p - 1)%nat by lia.
  replace (Z.to_nat (Z.of_nat p + 1)) with (p + 1)%nat by lia.
  rewrite Nat2Z.id. split; [lia |]. split; assumption.
Qed.

(** X22: in pre-fitted mode peaks of equal value come in increasing order of
    index: the sort is stable. *)
Theorem findMaxDivergencePeaks_ties (x : Array)
    (expTuple polyTuple : FitParametersTuple) (d : Array) (peaks : list Z)
    (log : list Call) :
  diffExpPoly exp x (fst expTuple) (fst polyTuple) = Ok d ->
  fst (findMaxDivergencePeaks x (Prefitted expTuple polyTuple) log) = Ok peaks ->
  StronglySorted (tie_order (value_at d) Z.lt) peaks.
Proof.
  intros Hd. rewrite (prefitted_run _ _ _ d log Hd). cbn [fst].
  intros H. inversion H; subst. apply rankPeaks_ties.
Qed.

(** X23: a series of fewer than three samples has no peak: in pre-fitted mode
    the result is the empty list whenever the curve evaluates. *)
Theorem findMaxDivergencePeaks_short_series (x : Array)
    (expTuple polyTuple : FitParametersTuple) (d : Array) (log : list Call) :
  diffExpPoly exp x (fst expTuple) (fst polyTuple) = Ok d ->
  (length x < 3)%nat ->
  findMaxDivergencePeaks x (Prefitted expTuple polyTuple) log = (Ok [], log).
Proof.
  intros Hd Hshort. rewrite (prefitted_run _ _ _ d log Hd).
  pose proof (diffExpPoly_length exp _ _ _ _ Hd) as Hlen.
  destruct (rankPeaks_spec d) as (Hin & _).
  destruct (rankPeaks d) as [| i rest]; [reflexivity | exfalso].
  destruct (proj1 (Hin i) (or_introl eq_refl))
    as (l & r & (H1 & H2 & H3 & _) & _).
  lia.
Qed.

End MoreFitProperties.

(** ** The further statements at concrete inputs *)

Lemma fit_succeeds_iff_witness :
  fst (fitExponential solver_on_ten repr_few (firstn 10 fifteen)
         (firstn 10 fifteen) None [])
  = Ok ([one; of_Z (-1); zero], [one; one; one]).
Proof.
  apply (proj1 (fit_succeeds_iff solver_on_ten repr_few (firstn 10 fifteen)
                  (firstn 10 fifteen) None []
                  ([one; of_Z (-1); zero], [one; one; one]))).
  exists [one; of_Z (-1); zero], identity3.
  split; [reflexivity |]. split; [repeat constructor | reflexivity].
Defined.

Lemma fit_negative_variance_witness :
  fitExponential solver_negative_variance repr_few fifteen fifteen None []
  = (Raise (RuntimeWarning Invalid), [exp_call fifteen fifteen (p0_or_default None)]).
Proof.
  assert (Hneg : Exists (fun v => ltb v zero = true)
                   (np_diag [[one; zero; zero]; [zero; of_Z (-1); zero];
                             [zero; zero; one]])).
  { apply Exists_cons_tl, Exists_cons_hd. reflexivity. }
  apply (proj1 (fit_negative_variance solver_negative_variance repr_few
                  fifteen fifteen None [] [one; of_Z (-1); zero] _ Hneg)).
  reflexivity.
Defined.

Lemma fit_other_exception_passes_witness :
  fitExponential solver_rejects_empty repr_few [] [] None []
  = (Raise (ValueError "`ydata` must not be empty!"),
     [exp_call [] [] (p0_or_default None)]).
Proof.
  apply (proj1 (fit_other_exception_passes solver_rejects_empty repr_few
                  [] [] None [] (ValueError "`ydata` must not be empty!")
                  eq_refl)).
  left. reflexivity.
Defined.

Lemma fitRCRT_single_index_witness :
  fitRCRT solver_on_ten exp_at_zero repr_few fifteen fifteen None (MaxDivInt 5) []
  = (Raise (RuntimeError
              "rCRT fit failed on maxDivIndex=5 and p0=[1.0, -0.3, 0.0]"
              (Some (RuntimeError
                       "Exponential fit failed with p0=[1.0, -0.3, 0.0]."
                       (Some (RuntimeError "Optimal parameters not found" None))))),
     [candidate_call fifteen fifteen (p0_or_default None) 5]).
Proof.
  apply (proj1 (proj2 (fitRCRT_single_index solver_on_ten exp_at_zero repr_few
                         fifteen fifteen None 5 []))).
  - vm_compute. reflexivity.
  - reflexivity.
Defined.

Lemma fitRCRT_index_edges_witness :
  snd (fitRCRT solver_on_ten exp_at_zero repr_few fifteen fifteen None
         (MaxDivInt 20) [])
  = [exp_call fifteen fifteen (p0_or_default None)]
  /\ snd (fitRCRT solver_on_ten exp_at_zero repr_few fifteen fifteen None
            (MaxDivInt (-5)) [])
     = [exp_call (firstn 10 fifteen) (firstn 10 fifteen) (p0_or_default None)].
Proof.
  destruct (fitRCRT_index_edges solver_on_ten exp_at_zero repr_few
              fifteen fifteen None 20 []) as (H1 & _).
  destruct (fitRCRT_index_edges solver_on_ten exp_at_zero repr_few
              fifteen fifteen None (-5) []) as (_ & _ & H3).
  split.
  - apply H1; cbn; lia.
  - apply H3. lia.
Defined.

Lemma fitRCRT_list_other_exception_witness :
  fitRCRT solver_rejects_empty exp_at_zero repr_few fifteen fifteen None
    (MaxDivList [5; 0; 10]) []
  = (Raise (ValueError "`ydata` must not be empty!"),
     [candidate_call fifteen fifteen (p0_or_default None) 5;
      candidate_call fifteen fifteen (p0_or_default None) 0]).
Proof.
  apply (fitRCRT_list_other_exception solver_rejects_empty exp_at_zero repr_few
           fifteen fifteen None [5] 0 [10]
           (ValueError "`ydata` must not be empty!") []).
  - constructor; [| constructor]. eexists _, _. vm_compute. reflexivity.
  - vm_compute. reflexivity.
  - reflexivity.
Defined.

Lemma fitRCRT_list_returns_candidate_witness :
  exists failed rest,
    [5; 10; 15] = (failed ++ 10 :: rest)%list
    /\ Forall (fun i => fit_failure
                          (candidate_fit solver_on_ten repr_few fifteen fifteen
                             (p0_or_default None) i)) failed
    /\ candidate_fit solver_on_ten repr_few fifteen fifteen (p0_or_default None) 10
       = Ok ([one; of_Z (-1); zero], [one; one; one]).
Proof.
  apply (fitRCRT_list_returns_candidate solver_on_ten exp_at_zero repr_few
           fifteen fifteen None [5; 10; 15]
           ([one; of_Z (-1); zero], [one; one; one]) 10 []).
  vm_compute. reflexivity.
Defined.

Lemma findMaxDivergencePeaks_raw_witness :
  findMaxDivergencePeaks solver_on_ten exp_at_zero repr_few fifteen
    (RawSeries fifteen) []
  = (Raise (RuntimeError
              "Exponential fit failed with p0=[1.0, -0.3, 0.0]."
              (Some (RuntimeError "Optimal parameters not found" None))),
     [exp_call fifteen fifteen (p0_or_default None)]).
Proof.
  apply (proj1 (findMaxDivergencePeaks_raw solver_on_ten exp_at_zero repr_few
                  fifteen fifteen [])).
  vm_compute. reflexivity.
Defined.

Lemma fitRCRT_auto_composes_witness :
  fitRCRT (solver_finds (fst hill_poly)) exp_at_zero repr_few hill_x hill_x
    (Some [of_Z 2; of_Z (-1); zero]) MaxDivNone []
  = fitRCRT (solver_finds (fst hill_poly)) exp_at_zero repr_few hill_x hill_x
      None (MaxDivList [2]) (full_calls hill_x hill_x).
Proof.
  apply (fitRCRT_auto_composes (solver_finds (fst hill_poly)) exp_at_zero
           repr_few hill_x hill_x (Some [of_Z 2; of_Z (-1); zero])
           ([zero; zero; zero], [one; one; one])
           (fst hill_poly, [one; one; one]) [2] []);
    vm_compute; reflexivity.
Defined.

Lemma fitRCRT_auto_no_peak_witness :
  fitRCRT (solver_finds line_coefs) exp_at_zero repr_few hill_x hill_x None
    MaxDivNone []
  = (Raise (RuntimeError
              "rCRT fit failed on all maxDivIndexes ([]), with p0={p0}." None),
     full_calls hill_x hill_x).
Proof.
  apply (fitRCRT_auto_no_peak (solver_finds line_coefs) exp_at_zero repr_few
           hill_x hill_x None ([zero; zero; zero], [one; one; one])
           (line_coefs, [one; one]) (map of_Z [0; 1; 2; 3; 4]) []).
  - vm_compute. reflexivity.
  - vm_compute. reflexivity.
  - vm_compute. reflexivity.
  - intros l r. apply ScipyFacts.no_plateau_increasing.
    intros j Hj. cbn in Hj.
    do 4 (destruct j as [| j]; [reflexivity |]). lia.
Defined.

Lemma fitRCRT_auto_returns_peak_witness :
  (exists lft rgt, plateau_peak (map of_Z [0; 3; 4; 3; 0]) lft rgt
                   /\ 2 = Z.of_nat ((lft + rgt) / 2))
  /\ 0 < 2 < Z.of_nat (length hill_x) - 1
  /\ candidate_fit (solver_finds (fst hill_poly)) repr_few hill_x hill_x
       (p0_or_default None) 2
     = Ok ([zero; zero; zero], [one; one; one]).
Proof.
  apply (fitRCRT_auto_returns_peak (solver_finds (fst hill_poly)) exp_at_zero
           repr_few hill_x hill_x None ([zero; zero; zero], [one; one; one])
           (fst hill_poly, [one; one; one]) (map of_Z [0; 3; 4; 3; 0])
           ([zero; zero; zero], [one; one; one]) 2 []);
    vm_compute; reflexivity.
Defined.

Lemma findMaxDivergencePeaks_local_maxima_witness :
  Forall (fun i => 0 < i < Z.of_nat (length hill_x) - 1
                   /\ leb (value_at (map of_Z [0; 3; 4; 3; 0]) (i - 1))
                          (value_at (map of_Z [0; 3; 4; 3; 0]) i) = true
                   /\ leb (value_at (map of_Z [0; 3; 4; 3; 0]) (i + 1))
                          (value_at (map of_Z [0; 3; 4; 3; 0]) i) = true) [2].
Proof.
  apply (findMaxDivergencePeaks_local_maxima solver_on_ten exp_at_zero repr_few
           hill_x flat_exp hill_poly (map of_Z [0; 3; 4; 3; 0]) [2] []);
    vm_compute; reflexivity.
Defined.

Lemma findMaxDivergencePeaks_ties_witness :
  StronglySorted (tie_order (value_at (map of_Z [15; 0; 3; 0; 3; 0; 15])) Z.lt)
    [2; 4].
Proof.
  apply (findMaxDivergencePeaks_ties solver_on_ten exp_at_zero repr_few
           seven flat_exp (cubic_coefs, [zero; zero; zero; zero])
           (map of_Z [15; 0; 3; 0; 3; 0; 15]) [2; 4] []);
    vm_compute; reflexivity.
Defined.

Lemma findMaxDivergencePeaks_short_series_witness :
  findMaxDivergencePeaks solver_on_ten exp_at_zero repr_few [zero; one]
    (Prefitted flat_exp hill_poly) []
  = (Ok [], []).
Proof.
  apply (findMaxDivergencePeaks_short_series solver_on_ten exp_at_zero repr_few
           [zero; one] flat_exp hill_poly (map of_Z [0; 3]) []).
  - vm_compute. reflexivity.
  - cbn. lia.
Defined.

(** ** Finite samples and coefficients *)

Module Float64Finite.

Lemma finite_not_inf (v : float) : is_finite v = true -> is_inf v = false.
Proof. destruct v; try discriminate; reflexivity. Qed.

Lemma not_nan_not_inf_finite (v : float) :
  is_nan v = false -> is_inf v = false -> is_finite v = true.
Proof. destruct v; try discriminate; reflexivity. Qed.

Lemma overflowed_none (r : float) : overflowed true r = None -> is_inf r = false.
Proof. unfold overflowed. cbn [andb]. destruct (is_inf r); [discriminate | reflexivity]. Qed.

Lemma binary_normalize_not_nan (m e : Z) (szero : bool) :
  is_nan (binary_normalize prec emax m e szero) = false.
Proof.
  unfold binary_normalize, binary_round.
  destruct m as [| m | m]; [reflexivity | |];
    destruct (shl_align m e _) as [mz ez];
    apply binary_round_aux_not_nan; lia.
Qed.

Lemma mul_finite (x y : float) :
  is_finite x = true -> is_finite y = true -> mul_flag x y = None ->
  is_finite (mul x y) = true.
Proof.
  destruct x as [sx | sx | | sx mx ex], y as [sy | sy | | sy my ey];
    try discriminate; try reflexivity.
  intros _ _ Hf. unfold mul_flag in Hf. cbn [is_nan is_zero is_inf is_finite orb andb] in Hf.
  apply overflowed_none in Hf.
  apply not_nan_not_inf_finite; [| exact Hf].
  cbn. apply binary_round_aux_not_nan. lia.
Qed.

Lemma add_finite (x y : float) :
  is_finite x = true -> is_finite y = true -> add_flag x y = None ->
  is_finite (add x y) = true.
Proof.
  destruct x as [sx | sx | | sx mx ex], y as [sy | sy | | sy my ey];
    try discriminate; try reflexivity.
  - intros _ _ _. destruct sx, sy; reflexivity.
  - intros _ _ Hf. unfold add_flag in Hf.
    cbn [is_nan is_zero is_inf is_finite orb andb] in Hf.
    apply overflowed_none in Hf.
    apply not_nan_not_inf_finite; [| exact Hf].
    cbn. apply binary_normalize_not_nan.
Qed.

Lemma mul_no_inf (x y : float) :
  is_finite x = true -> is_inf y = false -> mul_flag x y = None ->
  is_inf (mul x y) = false.
Proof.
  intros Hx Hy Hf. destruct (is_nan y) eqn:Hn.
  - apply is_nan_eq in Hn. subst y. rewrite mul_nan_r. reflexivity.
  - apply finite_not_inf, mul_finite; auto using not_nan_not_inf_finite.
Qed.

Lemma add_no_inf (x y : float) :
  is_inf x = false -> is_finite y = true -> add_flag x y = None ->
  is_inf (add x y) = false.
Proof.
  intros Hx Hy Hf. destruct (is_nan x) eqn:Hn.
  - apply is_nan_eq in Hn. subst x. reflexivity.
  - apply finite_not_inf, add_finite; auto using not_nan_not_inf_finite.
Qed.

End Float64Finite.

Import Float64Finite.

Module UfuncInversion.

Lemma unary_inv (flag : float -> option fpe) (op : float -> float) (a r : Array) :
  Ufunc.unary flag op a = Ok r ->
  r = map op a /\ Forall (fun v => flag v = None) a.
Proof.
  unfold Ufunc.unary. destruct (Ufunc.raised _) eqn:Hr; [discriminate |].
  intros H. inversion H. split; [reflexivity |].
  apply raised_none in Hr. rewrite Forall_map in Hr. exact Hr.
Qed.

Lemma binary_inv (flag : float -> float -> option fpe)
    (op : float -> float -> float) (a b r : Array) :
  Ufunc.binary flag op a b = Ok r ->
  r = map (fun p => op (fst p) (snd p)) (combine a b)
  /\ Forall (fun p => flag (fst p) (snd p) = None) (combine a b).
Proof.
  unfold Ufunc.binary. destruct (Nat.eqb _ _); [| discriminate].
  destruct (Ufunc.raised _) eqn:Hr; [discriminate |].
  intros H. inversion H. split; [reflexivity |].
  apply raised_none in Hr. rewrite Forall_map in Hr. exact Hr.
Qed.

Lemma Forall_combine {A B} (P : A -> Prop) (Q : B -> Prop) (a : list A) :
  forall b, Forall P a -> Forall Q b ->
  Forall (fun p => P (fst p) /\ Q (snd p)) (combine a b).
Proof.
  induction a as [| x a IH]; intros [| y b] Ha Hb; cbn; try constructor.
  - inversion Ha; inversion Hb; subst. split; assumption.
  - inversion Ha; inversion Hb; subst. apply IH; assumption.
Qed.

(** The result of an operation that passed its checks: every sample of the
    result has the property that the operation gives unflagged samples. *)
Lemma unary_Forall (flag : float -> option fpe) (op : float -> float)
    (P Q : float -> Prop) (a r : Array) :
  (forall v, P v -> flag v = None -> Q (op v)) ->
  Forall P a -> Ufunc.unary flag op a = Ok r -> Forall Q r.
Proof.
  intros Hstep Ha H. apply unary_inv in H. destruct H as [-> Hf].
  rewrite Forall_map. rewrite Forall_forall in *.
  intros v Hv. apply Hstep; auto.
Qed.

Lemma binary_Forall (flag : float -> float -> option fpe)
    (op : float -> float -> float) (P Q R : float -> Prop) (a b r : Array) :
  (forall v w, P v -> Q w -> flag v w = None -> R (op v w)) ->
  Forall P a -> Forall Q b -> Ufunc.binary flag op a b = Ok r -> Forall R r.
Proof.
  intros Hstep Ha Hb H. apply binary_inv in H. destruct H as [-> Hf].
  pose proof (Forall_combine P Q a b Ha Hb) as Hc.
  rewrite Forall_map. rewrite Forall_forall in *.
  intros [v w] Hv. destruct (Hc _ Hv) as [Hp Hq].
  apply Hstep; [exact Hp | exact Hq | exact (Hf _ Hv)].
Qed.

Lemma raised_some (flags : list (option fpe)) :
  Exists (fun f => f <> None) flags -> exists k, Ufunc.raised flags = Some k.
Proof.
  intros H. destruct (Ufunc.raised flags) as [k |] eqn:Hr; [eauto |].
  apply raised_none in Hr. rewrite Forall_forall in Hr.
  apply Exists_exists in H. destruct H as (f & Hin & Hf).
  exfalso. apply Hf, Hr, Hin.
Qed.

Lemma unary_raises (flag : float -> option fpe) (op : float -> float) (a : Array) :
  Exists (fun v => flag v <> None) a ->
  exists k, Ufunc.unary flag op a = Raise (RuntimeWarning k).
Proof.
  intros H. unfold Ufunc.unary.
  destruct (raised_some (map flag a)) as [k Hk].
  - apply Exists_exists in H. destruct H as (v & Hin & Hv).
    apply Exists_exists. exists (flag v). split; [apply in_map, Hin | exact Hv].
  - rewrite Hk. eauto.
Qed.

Lemma unary_cases (flag : float -> option fpe) (op : float -> float) (a : Array) :
  (exists k, Ufunc.unary flag op a = Raise (RuntimeWarning k))
  \/ Ufunc.unary flag op a = Ok (map op a).
Proof.
  unfold Ufunc.unary. destruct (Ufunc.raised _); [left; eauto | right; reflexivity].
Qed.

End UfuncInversion.

Import UfuncInversion.

Section FiniteCurves.

Variable exp : float -> float.

Local Abbreviation finite := (fun v : float => is_finite v = true).
Local Abbreviation not_inf := (fun v : float => is_inf v = false).

Lemma polyval_loop_finite (x : Array) (rest : list float) :
  Forall finite x -> Forall finite rest ->
  forall c0 p, Forall finite c0 ->
  polyval_loop x c0 rest = Ok p -> Forall finite p.
Proof.
  intros Hx. induction rest as [| ci rest IH]; intros Hr c0 p Hc; cbn.
  - intros H. inversion H; subst. exact Hc.
  - inversion Hr as [| ? ? Hci Hrest]; subst.
    destruct (Ufunc.multiply c0 x) as [c0x |] eqn:H1; [| discriminate].
    cbn [bind]. unfold Ufunc.scalar_add.
    destruct (Ufunc.unary _ _ c0x) as [c0' |] eqn:H2; [| discriminate].
    cbn [bind]. apply (IH Hrest).
    assert (Hm : Forall finite c0x).
    { apply (binary_Forall mul_flag mul finite finite finite c0 x c0x);
        auto using mul_finite. }
    apply (unary_Forall (add_flag ci) (Float64.add ci) finite finite c0x c0');
      auto using add_finite.
Qed.

(** X24: with finite coefficients and finite samples, every value that
    [polynomial] returns is finite: an overflow is an error, not an
    infinity in the result. *)
Theorem polynomial_finite (x : Array) (coefs : list float) (p : Array) :
  Forall (fun v => is_finite v = true) x ->
  Forall (fun v => is_finite v = true) coefs ->
  polynomial x coefs = Ok p ->
  Forall (fun v => is_finite v = true) p.
Proof.
  intros Hx Hc. unfold polynomial. destruct coefs as [| c0 cs]; [discriminate |].
  unfold Ufunc.scalar_mul, Ufunc.scalar_add.
  destruct (Ufunc.unary (mul_flag one) (mul one) x) as [sx |] eqn:H1; [| discriminate].
  cbn [bind].
  destruct (Ufunc.unary (add_flag zero) _ sx) as [arg |] eqn:H2; [| discriminate].
  cbn [bind]. unfold polyval.
  apply Forall_rev in Hc.
  destruct (rev (c0 :: cs)) as [| clast rest]; [discriminate |].
  inversion Hc as [| ? ? Hlast Hrest]; subst.
  unfold Ufunc.mul_scalar, Ufunc.scalar_add.
  destruct (Ufunc.unary _ _ arg) as [x0 |] eqn:H3; [| discriminate].
  cbn [bind].
  destruct (Ufunc.unary _ _ x0) as [c0' |] eqn:H4; [| discriminate].
  cbn [bind].
  assert (Hsx : Forall finite sx).
  { apply (unary_Forall (mul_flag one) (mul one) finite finite x sx); auto.
    intros v Hv. apply mul_finite; [reflexivity | exact Hv]. }
  assert (Harg : Forall finite arg).
  { apply (unary_Forall (add_flag zero) (Float64.add zero) finite finite sx arg); auto.
    intros v Hv. apply add_finite; [reflexivity | exact Hv]. }
  assert (Hx0 : Forall finite x0).
  { apply (unary_Forall (fun v => mul_flag v zero) (fun v => mul v zero)
             finite finite arg x0); auto.
    intros v Hv. apply mul_finite; [exact Hv | reflexivity]. }
  assert (Hc0 : Forall finite c0').
  { apply (unary_Forall (add_flag clast) (Float64.add clast) finite finite x0 c0');
      auto using add_finite. }
  apply polyval_loop_finite; assumption.
Qed.

(** X25: with finite parameters and finite samples, no value that
    [exponential] returns is infinite, whatever [np.exp] gives: an overflow
    of the exponential, of the product or of the sum is an error. *)
Theorem exponential_no_infinity (x : Array) (a b c : float) (e : Array) :
  is_finite a = true -> is_finite b = true -> is_finite c = true ->
  Forall (fun v => is_finite v = true) x ->
  exponential exp x a b c = Ok e ->
  Forall (fun v => is_inf v = false) e.
Proof.
  intros Ha Hb Hc Hx.
  unfold exponential, np_exp, Ufunc.scalar_mul, Ufunc.add_scalar.
  destruct (Ufunc.unary (mul_flag b) (mul b) x) as [bx |] eqn:H1; [| discriminate].
  cbn [bind].
  destruct (Ufunc.unary _ exp bx) as [ex |] eqn:H2; [| discriminate].
  cbn [bind].
  destruct (Ufunc.unary (mul_flag a) (mul a) ex) as [ae |] eqn:H3; [| discriminate].
  cbn [bind]. intros H4.
  assert (Hbx : Forall finite bx).
  { apply (unary_Forall (mul_flag b) (mul b) finite finite x bx);
      auto using mul_finite. }
  assert (Hex : Forall not_inf ex).
  { apply (unary_Forall (fun v => overflowed (is_finite v) (exp v)) exp
             finite not_inf bx ex); auto.
    intros v Hv Hf. cbn beta in Hv. rewrite Hv in Hf.
    apply overflowed_none, Hf. }
  assert (Hae : Forall not_inf ae).
  { apply (unary_Forall (mul_flag a) (mul a) not_inf not_inf ex ae);
      auto using mul_no_inf. }
  apply (unary_Forall (fun v => add_flag v c) (fun v => Float64.add v c)
           not_inf not_inf ae e); auto.
  intros v Hv Hf. apply add_no_inf; assumption.
Qed.

(** X26: [polynomial] never returns when a sample of [x] is infinite: with
    at least one coefficient the evaluation multiplies the sample by zero,
    and the invalid-value warning of that product (or a warning of an earlier
    operation) is raised. *)
Theorem polynomial_infinite_sample (x : Array) (coefs : list float) :
  Exists (fun v => is_inf v = true) x ->
  coefs <> [] ->
  exists k, polynomial x coefs = Raise (RuntimeWarning k).
Proof.
  intros Hx Hc. unfold polynomial. destruct coefs as [| c0 cs]; [contradiction |].
  unfold Ufunc.scalar_mul, Ufunc.scalar_add.
  destruct (unary_cases (mul_flag one) (mul one) x) as [[k ->] | ->];
    [exists k; reflexivity |].
  cbn [bind].
  destruct (unary_cases (add_flag zero) (Float64.add zero) (map (mul one) x))
    as [[k ->] | ->]; [exists k; reflexivity |].
  cbn [bind]. unfold polyval.
  destruct (rev (c0 :: cs)) as [| clast rest] eqn:Hrev.
  { apply (f_equal (@length float)) in Hrev. rewrite length_rev in Hrev.
    discriminate. }
  unfold Ufunc.mul_scalar.
  destruct (unary_raises (fun v => mul_flag v zero) (fun v => mul v zero)
              (map (Float64.add zero) (map (mul one) x))) as [k Hk].
  - apply Exists_exists in Hx. destruct Hx as (v & Hin & Hv).
    apply Exists_exists. exists (Float64.add zero (mul one v)).
    split; [apply in_map, in_map, Hin |].
    destruct v as [s | s | | s m e]; try discriminate.
  - rewrite Hk. exists k. reflexivity.
Qed.

End FiniteCurves.

Lemma polynomial_finite_witness :
  Forall (fun v => is_finite v = true) (map of_Z [0; 3; 4; 3; 0]).
Proof.
  apply (polynomial_finite hill_x (fst hill_poly) (map of_Z [0; 3; 4; 3; 0])).
  - repeat constructor.
  - repeat constructor.
  - vm_compute. reflexivity.
Defined.

Lemma exponential_no_infinity_witness :
  Forall (fun v => is_inf v = false) [of_Z 3; of_Z 3].
Proof.
  apply (exponential_no_infinity exp_at_zero [zero; zero] (of_Z 2) (of_Z (-1)) one
           [of_Z 3; of_Z 3] eq_refl eq_refl eq_refl).
  - repeat constructor.
  - vm_compute. reflexivity.
Defined.

Lemma polynomial_infinite_sample_witness :
  exists k, polynomial [one; pinf; of_Z 2] [one; of_Z 2] = Raise (RuntimeWarning k).
Proof.
  apply (polynomial_infinite_sample [one; pinf; of_Z 2] [one; of_Z 2]).
  - apply Exists_cons_tl, Exists_cons_hd. reflexivity.
  - discriminate.
Defined.
